(** * AI-Chat-CLI: the conversation-session engine of cmd/simple_chat.go

    A shallow embedding of the chat command (input sanitizer, conversation
    history, chat client and session loop) and the proofs of its
    specification.

    Go strings are byte sequences: they are modelled as [string], one
    [ascii] per byte.  Go runes are modelled as [Z]. *)

From Stdlib Require Import ZArith NArith Lia ZifyBool Bool List Ascii String.
From Stdlib Require Import QArith_base DecimalString Permutation.
From stdpp Require Import base gmap strings.

Import ListNotations.
Local Open Scope string_scope.
Local Open Scope list_scope.
Local Open Scope Z_scope.

(** ** Bytes and byte strings *)

Definition byte_val (c : ascii) : Z := Z.of_N (N_of_ascii c).
Definition byte_of (z : Z) : ascii := ascii_of_N (Z.to_N z).

(** [len(s)], in bytes. *)
Definition len (s : string) : Z := Z.of_nat (String.length s).

(** [s[:n]] and [s[n:]] for [0 <= n <= len(s)]. *)
Fixpoint take_bytes (n : nat) (s : string) : string :=
  match n, s with
  | S k, String c t => String c (take_bytes k t)
  | _, _ => EmptyString
  end.

Fixpoint drop_bytes (n : nat) (s : string) : string :=
  match n, s with
  | S k, String _ t => drop_bytes k t
  | _, _ => s
  end.

Fixpoint concat_bytes (l : list string) : string :=
  match l with
  | [] => EmptyString
  | s :: l' => s +:+ concat_bytes l'
  end.

(** ** Package unicode/utf8

    Go's [range] over a string, [strings.Builder.WriteRune] and the
    functions of package strings see a string through its UTF-8 decoding.
    The decoder and the encoder follow utf8.DecodeRuneInString and
    utf8.AppendRune; an ill-formed byte decodes to [RuneError] with
    width 1. *)

Module utf8.

Definition RuneError : Z := 0xFFFD.
Definition RuneSelf : Z := 0x80.
Definition MaxRune : Z := 0x10FFFF.
Definition surrogateMin : Z := 0xD800.
Definition surrogateMax : Z := 0xDFFF.

Definition in_range (lo hi b : Z) : bool := (lo <=? b) && (b <=? hi).

(** The continuation byte 10xxxxxx carries six bits. *)
Definition cont (c : ascii) : Z := byte_val c mod 64.

(** Second-byte ranges of utf8.acceptRanges, selected by the first byte. *)
Definition accept_lo (b0 : Z) : Z :=
  if b0 =? 0xE0 then 0xA0 else if b0 =? 0xF0 then 0x90 else 0x80.
Definition accept_hi (b0 : Z) : Z :=
  if b0 =? 0xED then 0x9F else if b0 =? 0xF4 then 0x8F else 0xBF.

(** utf8.DecodeRuneInString: the first rune of [s] and its width in bytes. *)
Definition DecodeRuneInString (s : string) : Z * nat :=
  match s with
  | EmptyString => (RuneError, 0%nat)
  | String c0 t =>
    let b0 := byte_val c0 in
    if b0 <? RuneSelf then (b0, 1%nat)
    else if (b0 <? 0xC2) || (0xF4 <? b0) then (RuneError, 1%nat)
    else
      match t with
      | EmptyString => (RuneError, 1%nat)
      | String c1 t1 =>
        if negb (in_range (accept_lo b0) (accept_hi b0) (byte_val c1))
        then (RuneError, 1%nat)
        else if b0 <? 0xE0 then ((b0 mod 32) * 64 + cont c1, 2%nat)
        else
          match t1 with
          | EmptyString => (RuneError, 1%nat)
          | String c2 t2 =>
            if negb (in_range 0x80 0xBF (byte_val c2)) then (RuneError, 1%nat)
            else if b0 <? 0xF0
            then ((b0 mod 16) * 4096 + cont c1 * 64 + cont c2, 3%nat)
            else
              match t2 with
              | EmptyString => (RuneError, 1%nat)
              | String c3 _ =>
                if negb (in_range 0x80 0xBF (byte_val c3)) then (RuneError, 1%nat)
                else ((b0 mod 8) * 262144 + cont c1 * 4096 + cont c2 * 64 + cont c3,
                      4%nat)
              end
          end
      end
  end.

(** utf8.AppendRune to an empty buffer: the UTF-8 encoding of [r]; a rune
    out of range or a surrogate half is written as [RuneError]. *)
Definition EncodeRune (r : Z) : string :=
  let b (z : Z) (t : string) := String (byte_of z) t in
  if (0 <=? r) && (r <=? 0x7F) then b r EmptyString
  else if (0 <=? r) && (r <=? 0x7FF) then
    b (0xC0 + r / 64) (b (0x80 + r mod 64) EmptyString)
  else if (r <? 0) || (MaxRune <? r) || in_range surrogateMin surrogateMax r then
    b 0xEF (b 0xBF (b 0xBD EmptyString))
  else if r <=? 0xFFFF then
    b (0xE0 + r / 4096)
      (b (0x80 + (r / 64) mod 64) (b (0x80 + r mod 64) EmptyString))
  else
    b (0xF0 + r / 262144)
      (b (0x80 + (r / 4096) mod 64)
         (b (0x80 + (r / 64) mod 64) (b (0x80 + r mod 64) EmptyString))).

(** utf8.ValidRune *)
Definition ValidRune (r : Z) : bool :=
  ((0 <=? r) && (r <? surrogateMin)) || ((surrogateMax <? r) && (r <=? MaxRune)).

End utf8.

(** A decoded rune together with the bytes it was decoded from. *)
Definition chunk : Type := Z * string.

(** The sequence [for i, r := range s] goes through: after a rune of width
    [n] is decoded the next [n - 1] bytes are skipped. *)
Fixpoint chunks_from (skip : nat) (s : string) : list chunk :=
  match s with
  | EmptyString => []
  | String _ t =>
    match skip with
    | S k => chunks_from k t
    | O =>
      let (r, n) := utf8.DecodeRuneInString s in
      (r, take_bytes n s) :: chunks_from (n - 1) t
    end
  end.

Definition chunks (s : string) : list chunk := chunks_from 0 s.

(** The runes [range s] yields. *)
Definition runes (s : string) : list Z := map fst (chunks s).

(** utf8.RuneCountInString: the number of characters of [s]. *)
Definition RuneCountInString (s : string) : Z := Z.of_nat (length (runes s)).

Definition bytes_of (cs : list chunk) : string := concat_bytes (map snd cs).

(** Writing runes one after the other into a strings.Builder. *)
Definition encode_all (rs : list Z) : string :=
  concat_bytes (map utf8.EncodeRune rs).

(** ** Package unicode *)

Module unicode.

(** unicode.IsSpace: the Latin-1 white space, then the White_Space table. *)
Definition IsSpace (r : Z) : bool :=
  if (0 <=? r) && (r <=? 0xFF) then
    (r =? 9) || (r =? 10) || (r =? 11) || (r =? 12) || (r =? 13)
    || (r =? 32) || (r =? 0x85) || (r =? 0xA0)
  else
    (r =? 0x1680) || utf8.in_range 0x2000 0x200A r || (r =? 0x2028)
    || (r =? 0x2029) || (r =? 0x202F) || (r =? 0x205F) || (r =? 0x3000).

End unicode.

(** ** List helpers shared by the byte-level functions and their
    rune-level descriptions *)

Section Splitting.
Context {A : Type} (sp : A -> bool).

Fixpoint drop_while (l : list A) : list A :=
  match l with
  | x :: l' => if sp x then drop_while l' else l
  | [] => []
  end.

Definition trim (l : list A) : list A :=
  rev (drop_while (rev (drop_while l))).

(** Maximal runs of elements that are not separators; [cur] is the run
    being read. *)
Fixpoint split_on (cur : list A) (l : list A) : list (list A) :=
  match l with
  | [] => match cur with [] => [] | _ => [cur] end
  | x :: l' =>
    if sp x then
      match cur with
      | [] => split_on [] l'
      | _ => cur :: split_on [] l'
      end
    else split_on (cur ++ [x]) l'
  end.

Fixpoint join_with (sep : A) (ws : list (list A)) : list A :=
  match ws with
  | [] => []
  | [w] => w
  | w :: ws' => w ++ sep :: join_with sep ws'
  end.

(** A non-empty run without separator. *)
Definition word (w : list A) : Prop :=
  w <> [] /\ Forall (fun x => sp x = false) w.

(** A list that neither starts nor ends with a separator. *)
Definition trimmed (l : list A) : Prop :=
  l = []
  \/ (exists x, l = [x] /\ sp x = false)
  \/ (exists x m y, l = x :: m ++ [y] /\ sp x = false /\ sp y = false).
End Splitting.

(** ** Package strings *)

Module strings.

Definition space_chunk (c : chunk) : bool := unicode.IsSpace (fst c).

(** strings.TrimSpace: [s] without its leading and trailing white space,
    as defined by Unicode. *)
Definition TrimSpace (s : string) : string :=
  bytes_of (trim space_chunk (chunks s)).

(** strings.Fields: [s] split around each run of white space. *)
Definition Fields (s : string) : list string :=
  map bytes_of (split_on space_chunk [] (chunks s)).

(** strings.Join *)
Fixpoint Join (elems : list string) (sep : string) : string :=
  match elems with
  | [] => EmptyString
  | [e] => e
  | e :: elems' => e +:+ sep +:+ Join elems' sep
  end.

(** strings.Map: a negative result of [mapping] drops the character. *)
Definition Map (mapping : Z -> Z) (s : string) : string :=
  concat_bytes
    (map (fun r => if mapping r <? 0 then EmptyString
                   else utf8.EncodeRune (mapping r)) (runes s)).

Fixpoint isASCII (s : string) : bool :=
  match s with
  | EmptyString => true
  | String c t => (byte_val c <? utf8.RuneSelf) && isASCII t
  end.

Definition lower_byte (c : ascii) : ascii :=
  let b := byte_val c in
  if (65 <=? b) && (b <=? 90) then byte_of (b + 32) else c.

Fixpoint map_bytes (f : ascii -> ascii) (s : string) : string :=
  match s with
  | EmptyString => EmptyString
  | String c t => String (f c) (map_bytes f t)
  end.

(** strings.ToLower: bytewise on an ASCII string, through the Unicode case
    tables ([unicode_ToLower], data of the Go runtime) otherwise. *)
Definition ToLower (unicode_ToLower : Z -> Z) (s : string) : string :=
  if isASCII s then map_bytes lower_byte s else Map unicode_ToLower s.

End strings.

(** ** InputSanitizer: cleanInput *)

(** The condition of the [if] inside the loop of cleanInput. *)
Definition retained (r : Z) : bool :=
  (r =? 32) || (r =? 9) || ((32 <=? r) && (r <=? 126)) || (127 <? r).

(** [r != ' ' && r != '\t'] *)
Definition marks_valid (r : Z) : bool := negb (r =? 32) && negb (r =? 9).

(** The [for _, r := range cleaned] loop, on the builder [result] and the
    flag [hasValidChar]. *)
Fixpoint cleanInput_loop (rs : list Z) (result : string) (hasValidChar : bool)
  : string * bool :=
  match rs with
  | [] => (result, hasValidChar)
  | r :: rs' =>
    if retained r then
      cleanInput_loop rs' (result +:+ utf8.EncodeRune r)
        (if marks_valid r then true else hasValidChar)
    else cleanInput_loop rs' result hasValidChar
  end.

Definition cleanInput (input : string) : string :=
  let cleaned := strings.TrimSpace input in
  let (result, hasValidChar) := cleanInput_loop (runes cleaned) EmptyString false in
  if negb hasValidChar then EmptyString
  else strings.Join (strings.Fields result) " ".

(** The one-byte string of a byte value. *)
Definition chr (n : Z) : string := String (byte_of n) EmptyString.

(** ** Data model *)

Record Message := { Role : string; Content : string }.

(** config.ProviderConfig *)
Record ProviderConfig := {
  APIKey : string;
  BaseURL : string;
  Model : string;
  MaxTokens : Z;
  Extra : gmap string string
}.

(** config.Config, the part the chat command reads. *)
Record Config := { Providers : gmap string ProviderConfig }.

(** [Temperature] is a float64 in the source; its only value is the
    literal 0.7, kept as a rational. *)
Record ChatRequest := {
  req_Model : string;
  req_Messages : list Message;
  req_MaxTokens : Z;
  req_Temperature : Q
}.

Record Usage := {
  PromptTokens : Z;
  CompletionTokens : Z;
  TotalTokens : Z
}.

Record Choice := { choice_Message : Message }.

Record ChatResponse := { Choices : list Choice; resp_Usage : Usage }.

Record HttpRequest := {
  Method : string;
  URL : string;
  Header : list (string * string);
  Body : string
}.

(** What [client.Do] hands back: the status, the raw body text (what
    [io.ReadAll] reads) and what the JSON decoder makes of that body. *)
Record HttpResponse := {
  StatusCode : Z;
  BodyText : string;
  BodyJSON : string + ChatResponse
}.

(** The errors askQuestionWithHistory builds with fmt.Errorf, tagged by
    kind; [Error] renders the message. *)
Inductive error :=
| RequestBuildError (cause : string)
| RequestCreateError (cause : string)
| TransportError (cause : string)
| APIError (status : Z) (body : string)
| DecodeError (cause : string)
| EmptyResponseError.

(** The verb %d of package fmt on an int. *)
Definition fmt_d (n : Z) : string := NilZero.string_of_int (Z.to_int n).

Definition Error (e : error) : string :=
  match e with
  | RequestBuildError cause => "构建请求失败: " +:+ cause
  | RequestCreateError cause => "创建请求失败: " +:+ cause
  | TransportError cause => "请求发送失败: " +:+ cause
  | APIError status body => "API返回错误 " +:+ fmt_d status +:+ ": " +:+ body
  | DecodeError cause => "解析响应失败: " +:+ cause
  | EmptyResponseError => "API返回空响应"
  end.

(** The collaborators outside the repository, as oracles: the JSON
    encoder, http.NewRequest and the HTTP client.  [client_Do] is given the
    number of requests sent before, so that the API may answer every call
    differently; [range_Providers k m] is the order in which the [k]-th
    [range] loop of runSimpleChat visits the map [m]; [unicode_ToLower] is
    the case table behind strings.ToLower. *)
Record Env := {
  json_Marshal : ChatRequest -> string + string;
  http_NewRequest : string -> string -> string -> option string;
  client_Do : nat -> HttpRequest -> string + HttpResponse;
  range_Providers :
    nat -> gmap string ProviderConfig -> list (string * ProviderConfig);
  unicode_ToLower : Z -> Z
}.

(** The mutable state of a run: the conversation history behind the
    history pointer, the global [chatProvider], standard output (one
    entry per print call), the requests sent so far with their payload, and
    the number of lines the scanner has delivered. *)
Record World := {
  history : list Message;
  chatProvider : string;
  stdout : list string;
  sent : list (ChatRequest * HttpRequest);
  scanned : nat
}.

Definition set_history (h : list Message) (w : World) : World :=
  {| history := h; chatProvider := chatProvider w; stdout := stdout w;
     sent := sent w; scanned := scanned w |}.

Definition set_chatProvider (p : string) (w : World) : World :=
  {| history := history w; chatProvider := p; stdout := stdout w;
     sent := sent w; scanned := scanned w |}.

Definition fmt_Print (text : string) (w : World) : World :=
  {| history := history w; chatProvider := chatProvider w;
     stdout := stdout w ++ [text]; sent := sent w; scanned := scanned w |}.

Definition log_request (r : ChatRequest) (q : HttpRequest) (w : World) : World :=
  {| history := history w; chatProvider := chatProvider w; stdout := stdout w;
     sent := sent w ++ [(r, q)]; scanned := scanned w |}.

Definition scan_one (w : World) : World :=
  {| history := history w; chatProvider := chatProvider w; stdout := stdout w;
     sent := sent w; scanned := S (scanned w) |}.

Definition nl : string := chr 10.
Definition esc : string := chr 27.

Definition fmt_Println (text : string) (w : World) : World := fmt_Print (text +:+ nl) w.

(** ** ConversationHistory *)

(** The turn count, [len/2] of the history. *)
Definition turnCount (h : list Message) : Z := Z.quot (Z.of_nat (length h)) 2.

(** The history is replaced by the empty slice. *)
Definition reset (w : World) : World := set_history [] w.

(** [append] of one message to the history. *)
Definition append_message (m : Message) (w : World) : World :=
  set_history (history w ++ [m]) w.

(** ** ChatClient: askQuestionWithHistory *)

Definition Header_Set (k v : string) (q : HttpRequest) : HttpRequest :=
  {| Method := Method q; URL := URL q;
     Header := List.filter (fun kv => negb (String.eqb (fst kv) k)) (Header q)
               ++ [(k, v)];
     Body := Body q |}.

Definition askQuestionWithHistory (env : Env) (providerCfg : ProviderConfig)
    (question : string) (w : World) : option error * World :=
  let w := fmt_Print "🤖 AI: " w in
  let model :=
    if String.eqb (Model providerCfg) "" then "gpt-3.5-turbo"
    else Model providerCfg in
  let maxTokens :=
    if MaxTokens providerCfg =? 0 then 2000 else MaxTokens providerCfg in
  let baseURL :=
    if String.eqb (BaseURL providerCfg) "" then "https://api.openai.com/v1"
    else BaseURL providerCfg in
  let w := append_message {| Role := "user"; Content := question |} w in
  let reqBody :=
    {| req_Model := model; req_Messages := history w;
       req_MaxTokens := maxTokens; req_Temperature := Qmake 7 10 |} in
  match json_Marshal env reqBody with
  | inl err => (Some (RequestBuildError err), w)
  | inr jsonData =>
    let apiURL := baseURL +:+ "/chat/completions" in
    match http_NewRequest env "POST" apiURL jsonData with
    | Some err => (Some (RequestCreateError err), w)
    | None =>
      let req :=
        {| Method := "POST"; URL := apiURL; Header := []; Body := jsonData |} in
      let req := Header_Set "Content-Type" "application/json" req in
      let req := Header_Set "Authorization" ("Bearer " +:+ APIKey providerCfg) req in
      let resp := client_Do env (length (sent w)) req in
      let w := log_request reqBody req w in
      match resp with
      | inl err => (Some (TransportError err), w)
      | inr resp =>
        if negb (StatusCode resp =? 200) then
          (Some (APIError (StatusCode resp) (BodyText resp)), w)
        else
          match BodyJSON resp with
          | inl err => (Some (DecodeError err), w)
          | inr chatResp =>
            match Choices chatResp with
            | [] => (Some EmptyResponseError, w)
            | choice :: _ =>
              let response := Content (choice_Message choice) in
              let w := fmt_Println response w in
              let w :=
                append_message {| Role := "assistant"; Content := response |} w in
              let usage := resp_Usage chatResp in
              let w :=
                fmt_Print (nl +:+ "📊 Token使用: " +:+ fmt_d (TotalTokens usage)
                       +:+ " (输入: " +:+ fmt_d (PromptTokens usage)
                       +:+ ", 输出: " +:+ fmt_d (CompletionTokens usage)
                       +:+ ") | 对话轮次: " +:+ fmt_d (turnCount (history w))
                       +:+ nl) w in
              (None, w)
            end
          end
      end
    end
  end.

(** ** SessionLoop *)

(** truncateString.  The slice [s[:maxLen]] counts bytes, as [len] does; it
    panics for a negative [maxLen], which the only caller (with 100) never
    passes. *)
Definition truncateString (s : string) (maxLen : Z) : string :=
  if len s <=? maxLen then s
  else take_bytes (Z.to_nat maxLen) s +:+ "...".

(** The line showHistory prints for the message at index [i]; a message
    whose role is neither user nor assistant prints nothing. *)
Definition history_line (i : Z) (msg : Message) : option string :=
  if String.eqb (Role msg) "user" then
    Some ("  " +:+ fmt_d (Z.quot i 2 + 1) +:+ ". 👤 你: " +:+ Content msg +:+ nl)
  else if String.eqb (Role msg) "assistant" then
    Some ("     🤖 AI: " +:+ truncateString (Content msg) 100 +:+ nl)
  else None.

Fixpoint showHistory_loop (i : Z) (msgs : list Message) (w : World) : World :=
  match msgs with
  | [] => w
  | msg :: rest =>
    let w := match history_line i msg with
             | Some line => fmt_Print line w
             | None => w
             end in
    showHistory_loop (i + 1) rest w
  end.

Definition showHistory (h : list Message) (w : World) : World :=
  match h with
  | [] => fmt_Println "📝 暂无对话历史" w
  | _ =>
    let w := fmt_Println "📝 对话历史:" w in
    let w := showHistory_loop 0 h w in
    fmt_Print ("📊 总计 " +:+ fmt_d (turnCount h) +:+ " 轮对话" +:+ nl) w
  end.

Definition print_banner (w : World) : World :=
  let w := fmt_Println "🤖 AI Chat CLI - 交互模式 (支持上下文记忆)" w in
  let w := fmt_Println "💡 输入问题开始对话" w in
  let w := fmt_Println "💡 特殊命令:" w in
  let w := fmt_Println "   • quit/exit - 退出程序" w in
  let w := fmt_Println "   • clear - 清屏" w in
  let w := fmt_Println "   • reset - 重置对话历史" w in
  let w := fmt_Println "   • history - 显示对话历史" w in
  let w := fmt_Println "   • help - 显示帮助" w in
  let w := fmt_Println "💡 如果输入出现问题，直接按回车重新输入" w in
  fmt_Println "---" w.

Definition print_help (w : World) : World :=
  let w := fmt_Println "🆘 可用命令:" w in
  let w := fmt_Println "   • quit/exit - 退出程序" w in
  let w := fmt_Println "   • clear - 清屏" w in
  let w := fmt_Println "   • reset - 重置对话历史" w in
  let w := fmt_Println "   • history - 显示对话历史" w in
  let w := fmt_Println "   • help - 显示此帮助" w in
  fmt_Println "   • 直接输入问题开始对话" w.

Definition print_clear (w : World) : World :=
  let w := fmt_Print (esc +:+ "[2J" +:+ esc +:+ "[H") w in
  let w := fmt_Println "🤖 AI Chat CLI - 交互模式 (支持上下文记忆)" w in
  let w := fmt_Print ("💡 当前对话历史: " +:+ fmt_d (turnCount (history w))
                  +:+ " 轮次" +:+ nl) w in
  let w := fmt_Println "💡 输入问题开始对话，输入 'help' 查看命令" w in
  fmt_Println "---" w.

Definition msg_goodbye : string := "👋 再见！".
Definition msg_reset : string := "🔄 对话历史已重置".
Definition msg_invalid : string := "⚠️  输入包含无效字符，请重新输入".
Definition msg_hint : string :=
  "💡 请检查网络连接或重试，输入 'help' 查看可用命令".
Definition msg_failed (err : error) : string :=
  "❌ 对话失败: " +:+ Error err +:+ nl.

(** The cleaned input is shown when cleaning changed it. *)
Definition echo_cleaned (cleaned input : string) (w : World) : World :=
  if negb (String.eqb cleaned input)
  then fmt_Print ("📝 已清理输入: " +:+ cleaned +:+ nl) w else w.

(** What one turn of the [for] loop ends with: [continue] (or the end of
    the body), or [return]. *)
Inductive flow := Continue (w : World) | Return (w : World).

(** The body of the loop of runInteractiveChatWithHistory once
    [scanner.Scan()] has delivered [text]. *)
Definition loop_body (env : Env) (providerCfg : ProviderConfig) (text : string)
    (w : World) : flow :=
  let input := strings.TrimSpace text in
  if String.eqb input "" then Continue w
  else
    let cleaned := cleanInput input in
    if String.eqb cleaned "" then Continue (fmt_Println msg_invalid w)
    else
      let lowerInput := strings.ToLower (unicode_ToLower env) cleaned in
      if String.eqb lowerInput "quit" || String.eqb lowerInput "exit" then
        Return (fmt_Println msg_goodbye w)
      else if String.eqb lowerInput "clear" then Continue (print_clear w)
      else if String.eqb lowerInput "reset" then
        Continue (fmt_Println msg_reset (reset w))
      else if String.eqb lowerInput "history" then
        Continue (showHistory (history w) w)
      else if String.eqb lowerInput "help" then Continue (print_help w)
      else
        let w := echo_cleaned cleaned input w in
        let (err, w) := askQuestionWithHistory env providerCfg cleaned w in
        let w := match err with
                 | Some e => fmt_Println msg_hint (fmt_Print (msg_failed e) w)
                 | None => w
                 end in
        Continue (fmt_Println "" w).

(** The [for] loop over standard input: [lines] are the lines still to be
    scanned, [scanErr] is what [scanner.Err()] reports once they are
    exhausted. *)
Fixpoint interactive_loop (env : Env) (providerCfg : ProviderConfig)
    (lines : list string) (scanErr : option string) (w : World) : World :=
  let w := fmt_Print "👤 你: " w in
  match lines with
  | [] =>
    match scanErr with
    | Some err => fmt_Print (nl +:+ "❌ 输入错误: " +:+ err +:+ nl) w
    | None => w
    end
  | text :: rest =>
    match loop_body env providerCfg text (scan_one w) with
    | Continue w' => interactive_loop env providerCfg rest scanErr w'
    | Return w' => w'
    end
  end.

Definition runInteractiveChatWithHistory (env : Env) (providerCfg : ProviderConfig)
    (lines : list string) (scanErr : option string) (w : World) : World :=
  interactive_loop env providerCfg lines scanErr (print_banner w).

(** The first entry of a [range] over the providers that has a key. *)
Fixpoint first_with_key (entries : list (string * ProviderConfig)) : option string :=
  match entries with
  | [] => None
  | (name, providerCfg) :: rest =>
    if negb (String.eqb (APIKey providerCfg) "") then Some name
    else first_with_key rest
  end.

Fixpoint print_names (entries : list (string * ProviderConfig)) (w : World) : World :=
  match entries with
  | [] => w
  | (name, _) :: rest => print_names rest (fmt_Print ("  • " +:+ name +:+ nl) w)
  end.

(** runSimpleChat up to its last early [return] (configuration loading,
    provider selection and the key check): the provider configuration the
    session will use, or nothing when the function has returned. *)
Definition resolve_provider (env : Env) (loaded : string + Config) (w : World)
  : option ProviderConfig * World :=
  match loaded with
  | inl err =>
    let w := fmt_Print ("❌ 配置加载失败: " +:+ err +:+ nl) w in
    (None, fmt_Println "💡 请先运行 'ai-chat-cli config init' 初始化配置" w)
  | inr cfg =>
    let w :=
      if String.eqb (chatProvider w) "" then
        match first_with_key (range_Providers env 0 (Providers cfg)) with
        | Some name =>
          fmt_Print ("💡 自动选择提供商: " +:+ name +:+ nl) (set_chatProvider name w)
        | None => w
        end
      else w in
    match Providers cfg !! chatProvider w with
    | None =>
      let w := fmt_Print ("❌ 提供商 '" +:+ chatProvider w +:+ "' 未找到" +:+ nl) w in
      let w := fmt_Println "📋 可用的提供商:" w in
      (None, print_names (range_Providers env 1 (Providers cfg)) w)
    | Some providerCfg =>
      if String.eqb (APIKey providerCfg) "" then
        let w := fmt_Print ("❌ 提供商 '" +:+ chatProvider w +:+ "' 的API密钥未设置" +:+ nl) w in
        let w := fmt_Print ("💡 请运行以下命令设置API密钥：" +:+ nl) w in
        (None, fmt_Print ("   ai-chat-cli config set providers." +:+ chatProvider w
                      +:+ ".api_key YOUR_API_KEY" +:+ nl) w)
      else (Some providerCfg, w)
    end
  end.

(** runSimpleChat: [loaded] is the result of config.LoadConfig, [args] the
    positional arguments, [lines] and [scanErr] standard input. *)
Definition runSimpleChat (env : Env) (loaded : string + Config) (args : list string)
    (lines : list string) (scanErr : option string) (w : World) : World :=
  match resolve_provider env loaded w with
  | (None, w) => w
  | (Some providerCfg, w) =>
    let w := fmt_Print ("🚀 使用提供商: " +:+ chatProvider w +:+ nl) w in
    let w :=
      if negb (String.eqb (BaseURL providerCfg) "")
         && negb (String.eqb (BaseURL providerCfg) "https://api.openai.com/v1")
      then fmt_Print ("🌐 API地址: " +:+ BaseURL providerCfg +:+ nl) w else w in
    let w :=
      if negb (String.eqb (Model providerCfg) "")
      then fmt_Print ("🤖 使用模型: " +:+ Model providerCfg +:+ nl) w else w in
    let w := set_history [] w in
    match args with
    | question :: _ =>
      let (err, w) := askQuestionWithHistory env providerCfg question w in
      match err with
      | Some e => fmt_Print (msg_failed e) w
      | None => w
      end
    | [] => runInteractiveChatWithHistory env providerCfg lines scanErr w
    end
  end.

(** ** Vocabulary of the statements *)

(** [sub] occurs in [s]. *)
Definition contains (sub s : string) : Prop :=
  exists pre post, s = pre +:+ sub +:+ post.

Definition user_msg (q : string) : Message := {| Role := "user"; Content := q |}.
Definition assistant_msg (a : string) : Message :=
  {| Role := "assistant"; Content := a |}.

(** A mocked API: the request is always built and every call is answered
    with [resp]. *)
Definition api_returns (env : Env) (resp : HttpResponse) : Prop :=
  (forall r, exists data, json_Marshal env r = inr data)
  /\ (forall m u b, http_NewRequest env m u b = None)
  /\ (forall n q, client_Do env n q = inr resp).

(** Several exchanges in a row on the same history. *)
Fixpoint ask_all (env : Env) (providerCfg : ProviderConfig) (qs : list string)
    (w : World) : list (option error) * World :=
  match qs with
  | [] => ([], w)
  | q :: qs' =>
    let (e, w1) := askQuestionWithHistory env providerCfg q w in
    let (es, w2) := ask_all env providerCfg qs' w1 in
    (e :: es, w2)
  end.

(** The line is one of the commands quit and exit. *)
Definition quits (env : Env) (text : string) : bool :=
  let input := strings.TrimSpace text in
  let lowerInput := strings.ToLower (unicode_ToLower env) (cleanInput input) in
  negb (String.eqb input "") && negb (String.eqb (cleanInput input) "")
  && (String.eqb lowerInput "quit" || String.eqb lowerInput "exit").

(** The question the loop sends for a line, when the line is neither
    blank, nor rejected by the sanitizer, nor a session command. *)
Definition question_of (env : Env) (text : string) : option string :=
  let input := strings.TrimSpace text in
  let cleaned := cleanInput input in
  let lowerInput := strings.ToLower (unicode_ToLower env) cleaned in
  if String.eqb input "" || String.eqb cleaned ""
     || existsb (String.eqb lowerInput)
          ["quit"; "exit"; "clear"; "reset"; "history"; "help"]
  then None else Some cleaned.

(** The lines a run of the loop reads: up to the first quit or exit, or
    all of them. *)
Fixpoint lines_read (env : Env) (lines : list string) : nat :=
  match lines with
  | [] => O
  | text :: rest => if quits env text then 1%nat else S (lines_read env rest)
  end.

Definition flow_world (f : flow) : World :=
  match f with Continue w => w | Return w => w end.

(** Mocked collaborators for the scenarios of the specification. *)
Definition mock_env (answer : nat -> HttpResponse) : Env :=
  {| json_Marshal := fun _ => inr "{}";
     http_NewRequest := fun _ _ _ => None;
     client_Do := fun n _ => inr (answer n);
     range_Providers := fun _ m => map_to_list m;
     unicode_ToLower := fun r => r |}.

Definition mock_env_rev : Env :=
  {| json_Marshal := fun _ => inr "{}";
     http_NewRequest := fun _ _ _ => None;
     client_Do := fun _ _ => inl "connection refused";
     range_Providers := fun _ m => rev (map_to_list m);
     unicode_ToLower := fun r => r |}.

Definition usage_10_5_15 : Usage :=
  {| PromptTokens := 10; CompletionTokens := 5; TotalTokens := 15 |}.

Definition ok_response (answer : string) : HttpResponse :=
  {| StatusCode := 200; BodyText := "";
     BodyJSON := inr {| Choices := [ {| choice_Message := assistant_msg answer |} ];
                        resp_Usage := usage_10_5_15 |} |}.

Definition empty_response : HttpResponse :=
  {| StatusCode := 200; BodyText := "";
     BodyJSON := inr {| Choices := []; resp_Usage := usage_10_5_15 |} |}.

Definition error_response (status : Z) (body : string) : HttpResponse :=
  {| StatusCode := status; BodyText := body; BodyJSON := inl "not decoded" |}.

Definition demo_provider : ProviderConfig :=
  {| APIKey := "sk-demo"; BaseURL := ""; Model := ""; MaxTokens := 0;
     Extra := ∅ |}.

Definition empty_world : World :=
  {| history := []; chatProvider := ""; stdout := []; sent := []; scanned := O |}.

(** A command-line argument the sanitizer would change. *)
Definition raw_question : string := "  a" +:+ chr 1 +:+ "   b ".

(** Configurations: two providers with a key each, one provider without. *)
Definition keyed (key : string) : ProviderConfig :=
  {| APIKey := key; BaseURL := ""; Model := ""; MaxTokens := 0; Extra := ∅ |}.

Definition two_providers : Config :=
  {| Providers := <["free-oai" := keyed "key-2"]> {[ "openai" := keyed "key-1" ]} |}.

(** The two messages runSimpleChat prints for a provider it cannot use. *)
Definition config_error (name : string) (w : World) : Prop :=
  In ("❌ 提供商 '" +:+ name +:+ "' 未找到" +:+ nl) (stdout w)
  \/ In ("❌ 提供商 '" +:+ name +:+ "' 的API密钥未设置" +:+ nl) (stdout w).

(** [providerCfg.APIKey != ""] *)
Definition has_key (p : ProviderConfig) : Prop := APIKey p <> "".

Definition keyless_config : Config :=
  {| Providers := {[ "openai" := keyed "" ]} |}.

(** The chunk a well-formed rune is read back from. *)
Definition enc (r : Z) : chunk := (r, utf8.EncodeRune r).

(** The sanitizer on code points, in the words of the specification: keep
    the retained characters, split at white space, join with single
    spaces. *)
Definition clean_runes (rs : list Z) : list Z :=
  join_with 32 (split_on unicode.IsSpace [] (List.filter retained rs)).

(** A sequence of chunks that is the decoding of its own bytes. *)
Definition stable (cs : list chunk) : Prop := chunks (bytes_of cs) = cs.

Fixpoint repeat_string (n : nat) (s : string) : string :=
  match n with
  | O => EmptyString
  | S k => s +:+ repeat_string k s
  end.

(** An answer of 34 Chinese characters, three bytes each. *)
Definition answer_34 : string := repeat_string 34 "中".

(** ** Vocabulary of the further properties *)

(** Every message of [h] is a user or an assistant message, and every
    assistant message comes directly after a user message; [after_user]
    tells whether the message before [h] is a user message. *)
Fixpoint answers_follow_questions (after_user : bool) (h : list Message) : bool :=
  match h with
  | [] => true
  | m :: t =>
    if String.eqb (Role m) "user" then answers_follow_questions true t
    else if String.eqb (Role m) "assistant"
         then after_user && answers_follow_questions false t
         else false
  end.

Definition count_role (role : string) (h : list Message) : nat :=
  length (List.filter (fun m => String.eqb (Role m) role) h).

(** The history of completed turns: question, answer, question, answer. *)
Definition turns (qa : list (string * string)) : list Message :=
  flat_map (fun p => [user_msg (fst p); assistant_msg (snd p)]) qa.

(** The line is the command reset. *)
Definition resets (env : Env) (text : string) : bool :=
  let input := strings.TrimSpace text in
  let lowerInput := strings.ToLower (unicode_ToLower env) (cleanInput input) in
  negb (String.eqb input "") && negb (String.eqb (cleanInput input) "")
  && negb (String.eqb lowerInput "quit" || String.eqb lowerInput "exit")
  && negb (String.eqb lowerInput "clear")
  && String.eqb lowerInput "reset".

(** The value of a header of a request; Header_Set keeps one entry per
    name. *)
Definition Header_Get (k : string) (q : HttpRequest) : option string :=
  match List.filter (fun kv => String.eqb (fst kv) k) (Header q) with
  | [] => None
  | kv :: _ => Some (snd kv)
  end.

(** [s] ends with [suffix]. *)
Definition ends_with (suffix s : string) : Prop := exists pre, s = pre +:+ suffix.

(** The lines showHistory prints for completed turns, numbered from [k]. *)
Fixpoint transcript (k : Z) (qa : list (string * string)) : list string :=
  match qa with
  | [] => []
  | p :: rest =>
    ("  " +:+ fmt_d k +:+ ". 👤 你: " +:+ fst p +:+ nl)
      :: ("     🤖 AI: " +:+ truncateString (snd p) 100 +:+ nl)
      :: transcript (k + 1) rest
  end.

(** The number of lines a run of the loop sends as questions. *)
Fixpoint asked (env : Env) (lines : list string) : nat :=
  match lines with
  | [] => O
  | text :: rest =>
    if quits env text then O
    else match question_of env text with
         | Some _ => S (asked env rest)
         | None => asked env rest
         end
  end.

(** The request can always be built. *)
Definition builds_requests (env : Env) : Prop :=
  (forall r, exists data, json_Marshal env r = inr data)
  /\ (forall m u b, http_NewRequest env m u b = None).

(** ** Package config (internal/config/config.go) *)

Module config.

Record DefaultConfig := {
  Provider : string;
  DefaultModel : string;
  Stream : bool
}.

(** [CostLimit] is a float64 in the source; it is kept as the rational it
    denotes and is only ever printed, by the host's [fmt_f2]. *)
Record AdvancedConfig := {
  MaxRetries : Z;
  Timeout : Z;
  CostLimit : Q;
  SaveHistory : bool;
  HistoryLength : Z
}.

Record LoggingConfig := {
  Level : string;
  File : string;
  Requests : bool
}.

(** config.Config with all its sections; the chat command reads the
    providers only, see [chat_config]. *)
Record Config := {
  Providers : gmap string ProviderConfig;
  Default : DefaultConfig;
  Advanced : AdvancedConfig;
  Logging : LoggingConfig
}.

(** What the package and the config command ask of the operating system,
    of viper and of the Go runtime: the environment, the home directory,
    filepath.Join, the file system, the configuration viper holds, the
    order of a [range] over the providers, the verb %.2f and the case
    table behind strings.ToUpper. *)
Record Host := {
  Getenv : string -> string;
  UserHomeDir : string + string;
  filepath_Join : list string -> string;
  Stat_ok : string -> bool;
  MkdirAll : string -> option string;
  WriteFile : string -> string -> option string;
  viper_ReadInConfig : option string;
  viper_Unmarshal : string + Config;
  viper_WriteConfig : option string;
  range_map :
    nat -> gmap string ProviderConfig -> list (string * ProviderConfig);
  fmt_f2 : Q -> string;
  unicode_ToUpper : Z -> Z
}.

(** The loop of Validate over the providers. *)
Fixpoint validate_keys (getenv : string -> string)
    (entries : list (string * ProviderConfig)) : option string :=
  match entries with
  | [] => None
  | (name, provider) :: rest =>
    if String.eqb (APIKey provider) "" then
      let envKey := name +:+ "_API_KEY" in
      if String.eqb (getenv envKey) "" then
        Some ("提供商 '" +:+ name +:+ "' 缺少API密钥，请设置 " +:+ envKey
              +:+ " 环境变量或在配置文件中指定")
      else validate_keys getenv rest
    else validate_keys getenv rest
  end.

(** Config.Validate: the error, if any. *)
Definition Validate (host : Host) (c : Config) : option string :=
  let missing_default :=
    if negb (String.eqb (Provider (Default c)) "") then
      match Providers c !! Provider (Default c) with
      | None => Some ("默认提供商 '" +:+ Provider (Default c) +:+ "' 未配置")
      | Some _ => None
      end
    else None in
  match missing_default with
  | Some err => Some err
  | None => validate_keys (Getenv host) (range_map host 0 (Providers c))
  end.

Definition set_APIKey (key : string) (p : ProviderConfig) : ProviderConfig :=
  {| APIKey := key; BaseURL := BaseURL p; Model := Model p;
     MaxTokens := MaxTokens p; Extra := Extra p |}.

(** Config.GetProvider *)
Definition GetProvider (host : Host) (c : Config) (name : string)
  : string + ProviderConfig :=
  match Providers c !! name with
  | None => inl ("提供商 '" +:+ name +:+ "' 未配置")
  | Some provider =>
    if String.eqb (APIKey provider) "" then
      let envKey := name +:+ "_API_KEY" in
      let apiKey := Getenv host envKey in
      if negb (String.eqb apiKey "") then inr (set_APIKey apiKey provider)
      else inr provider
    else inr provider
  end.

(** config.Load, on the global [GlobalConfig]: the result and the new
    value of the global. *)
Definition Load (host : Host) (GlobalConfig : option Config)
  : (string + Config) * option Config :=
  match viper_Unmarshal host with
  | inl err => (inl ("解析配置失败: " +:+ err), GlobalConfig)
  | inr cfg =>
    match Validate host cfg with
    | Some err => (inl ("配置验证失败: " +:+ err), GlobalConfig)
    | None => (inr cfg, Some cfg)
    end
  end.

(** config.LoadConfig *)
Definition LoadConfig (host : Host) : string + Config :=
  match viper_ReadInConfig host with
  | Some err => inl ("读取配置文件失败: " +:+ err)
  | None =>
    match viper_Unmarshal host with
    | inl err => inl ("解析配置失败: " +:+ err)
    | inr cfg => inr cfg
    end
  end.

(** config.GetDefaultConfigPath *)
Definition GetDefaultConfigPath (host : Host) : string + string :=
  match UserHomeDir host with
  | inl err => inl err
  | inr home => inr (filepath_Join host [home; ".ai-chat-cli"; "config.yaml"])
  end.

End config.

(** The part of a loaded configuration runSimpleChat reads. *)
Definition chat_config (c : config.Config) : Config :=
  {| Providers := config.Providers c |}.

(** A host for the scenarios: [getenv] is the environment, [cfg] what
    viper holds, [present] the files that exist. *)
Definition mock_host (getenv : string -> string) (cfg : config.Config)
    (present : string -> bool) : config.Host :=
  {| config.Getenv := getenv;
     config.UserHomeDir := inr "/home/u";
     config.filepath_Join := fun parts => strings.Join parts "/";
     config.Stat_ok := present;
     config.MkdirAll := fun _ => None;
     config.WriteFile := fun _ _ => None;
     config.viper_ReadInConfig := None;
     config.viper_Unmarshal := inr cfg;
     config.viper_WriteConfig := None;
     config.range_map := fun _ m => map_to_list m;
     config.fmt_f2 := fun _ => "10.00";
     config.unicode_ToUpper := fun r => r |}.

Definition example_full_config (providers : gmap string ProviderConfig)
  : config.Config :=
  {| config.Providers := providers;
     config.Default := {| config.Provider := "openai"; config.DefaultModel := "";
                          config.Stream := true |};
     config.Advanced := {| config.MaxRetries := 3; config.Timeout := 30;
                           config.CostLimit := Qmake 10 1;
                           config.SaveHistory := true;
                           config.HistoryLength := 10 |};
     config.Logging := {| config.Level := "info"; config.File := "";
                          config.Requests := false |} |}.

(** An environment with the one variable [key] set. *)
Definition env_with (key value : string) : string -> string :=
  fun k => if String.eqb k key then value else "".

(** ** The config command (cmd/config.go) *)

(** strings.HasSuffix and strings.TrimSuffix *)
Definition strings_HasSuffix (s suffix : string) : bool :=
  (String.length suffix <=? String.length s)%nat
  && String.eqb (drop_bytes (String.length s - String.length suffix) s) suffix.

Definition strings_TrimSuffix (s suffix : string) : string :=
  if strings_HasSuffix s suffix
  then take_bytes (String.length s - String.length suffix) s
  else s.

Definition upper_byte (c : ascii) : ascii :=
  let b := byte_val c in
  if (97 <=? b) && (b <=? 122) then byte_of (b - 32) else c.

(** strings.ToUpper: bytewise on an ASCII string, through the Unicode case
    tables otherwise. *)
Definition strings_ToUpper (unicode_ToUpper : Z -> Z) (s : string) : string :=
  if strings.isASCII s then strings.map_bytes upper_byte s
  else strings.Map unicode_ToUpper s.

(** The double quote. *)
Definition dq : string := chr 34.

(** The example configuration createExampleConfig writes. *)
Definition configContent : string :=
  strings.Join
    [ "# AI Chat CLI 配置文件";
      "";
      "# AI提供商配置";
      "providers:";
      "  openai:";
      "    # API密钥（推荐使用环境变量 OPENAI_API_KEY）";
      "    api_key: " +:+ dq +:+ dq;
      "    base_url: " +:+ dq +:+ "https://api.openai.com/v1" +:+ dq;
      "    model: " +:+ dq +:+ "gpt-4o" +:+ dq;
      "    max_tokens: 4096";
      "";
      "  anthropic:";
      "    # API密钥（推荐使用环境变量 ANTHROPIC_API_KEY）";
      "    api_key: " +:+ dq +:+ dq;
      "    base_url: " +:+ dq +:+ "https://api.anthropic.com" +:+ dq;
      "    model: " +:+ dq +:+ "claude-3-sonnet-20240229" +:+ dq;
      "    max_tokens: 4096";
      "";
      "# 默认设置";
      "default:";
      "  provider: " +:+ dq +:+ "openai" +:+ dq +:+ "   # 默认使用的AI提供商";
      "  stream: true         # 是否启用流式输出";
      "";
      "# 高级设置";
      "advanced:";
      "  max_retries: 3       # 最大重试次数";
      "  timeout: 30          # 请求超时时间（秒）";
      "  cost_limit: 10.0     # 每日成本限制（美元）";
      "  save_history: true   # 是否保存对话历史";
      "  history_length: 10   # 保存的历史对话数量";
      "";
      "# 日志设置";
      "logging:";
      "  level: " +:+ dq +:+ "info" +:+ dq +:+ "        # 日志级别: debug, info, warn, error";
      "  requests: false      # 是否记录API请求日志" ] nl +:+ nl.

(** The state the config command works on: standard output, the calls
    made to os.MkdirAll and to os.WriteFile, and the global
    config.GlobalConfig. *)
Record Sys := {
  sys_out : list string;
  made : list string;
  written : list (string * string);
  GlobalConfig : option config.Config
}.

Definition sys_print (text : string) (st : Sys) : Sys :=
  {| sys_out := sys_out st ++ [text]; made := made st; written := written st;
     GlobalConfig := GlobalConfig st |}.

Definition sys_mkdir (dir : string) (st : Sys) : Sys :=
  {| sys_out := sys_out st; made := made st ++ [dir]; written := written st;
     GlobalConfig := GlobalConfig st |}.

Definition sys_write (name data : string) (st : Sys) : Sys :=
  {| sys_out := sys_out st; made := made st;
     written := written st ++ [(name, data)]; GlobalConfig := GlobalConfig st |}.

Definition sys_global (g : option config.Config) (st : Sys) : Sys :=
  {| sys_out := sys_out st; made := made st; written := written st;
     GlobalConfig := g |}.

(** createExampleConfig *)
Definition createExampleConfig (host : config.Host) (filename : string) (st : Sys)
  : option string * Sys :=
  let dir := strings_TrimSuffix filename "/config.yaml" in
  let st := sys_mkdir dir st in
  match config.MkdirAll host dir with
  | Some err => (Some err, st)
  | None =>
    let st := sys_write filename configContent st in
    (config.WriteFile host filename configContent, st)
  end.

(** The Run function of configInitCmd. *)
Definition configInit (host : config.Host) (st : Sys) : Sys :=
  match config.GetDefaultConfigPath host with
  | inl err => sys_print ("错误：无法获取配置文件路径: " +:+ err +:+ nl) st
  | inr configPath =>
    if config.Stat_ok host configPath then
      let st := sys_print ("配置文件已存在: " +:+ configPath +:+ nl) st in
      sys_print ("如果要重新初始化，请先删除现有配置文件。" +:+ nl) st
    else
      match createExampleConfig host configPath st with
      | (Some err, st) => sys_print ("错误：创建配置文件失败: " +:+ err +:+ nl) st
      | (None, st) =>
        let st := sys_print ("✓ 配置文件已创建: " +:+ configPath +:+ nl) st in
        let st := sys_print (nl +:+ "请编辑配置文件，设置您的API密钥：" +:+ nl) st in
        let st := sys_print ("  - OpenAI API密钥: 设置 OPENAI_API_KEY 环境变量" +:+ nl) st in
        let st := sys_print ("  - Anthropic API密钥: 设置 ANTHROPIC_API_KEY 环境变量" +:+ nl) st in
        sys_print (nl +:+ "或者直接在配置文件中设置 api_key 字段。" +:+ nl) st
      end
  end.

(** The verb %t. *)
Definition fmt_t (b : bool) : string := if b then "true" else "false".

(** The status configShowCmd prints for the key of a provider. *)
Definition apiKeyStatus (host : config.Host) (name : string)
    (provider : ProviderConfig) : string :=
  if negb (String.eqb (APIKey provider) "") then "已设置"
  else if negb (String.eqb
                  (config.Getenv host
                     (strings_ToUpper (config.unicode_ToUpper host) name
                      +:+ "_API_KEY")) "")
       then "环境变量"
       else "未设置".

(** The loop of configShowCmd over the providers. *)
Fixpoint show_providers (host : config.Host)
    (entries : list (string * ProviderConfig)) (st : Sys) : Sys :=
  match entries with
  | [] => st
  | (name, provider) :: rest =>
    let st := sys_print ("  " +:+ name +:+ ":" +:+ nl) st in
    let st := sys_print ("    模型: " +:+ Model provider +:+ nl) st in
    let st := sys_print ("    API密钥: " +:+ apiKeyStatus host name provider +:+ nl) st in
    let st := sys_print ("    最大Token: " +:+ fmt_d (MaxTokens provider) +:+ nl) st in
    show_providers host rest st
  end.

(** The Run function of configShowCmd. *)
Definition configShow (host : config.Host) (st : Sys) : Sys :=
  let (loaded, g) := config.Load host (GlobalConfig st) in
  let st := sys_global g st in
  match loaded with
  | inl err => sys_print ("错误：加载配置失败: " +:+ err +:+ nl) st
  | inr cfg =>
    let st := sys_print ("当前配置:" +:+ nl) st in
    let st := sys_print ("  默认提供商: " +:+ config.Provider (config.Default cfg) +:+ nl) st in
    let st := sys_print ("  流式输出: " +:+ fmt_t (config.Stream (config.Default cfg)) +:+ nl) st in
    let st := sys_print ("  最大重试: " +:+ fmt_d (config.MaxRetries (config.Advanced cfg)) +:+ nl) st in
    let st := sys_print ("  超时时间: " +:+ fmt_d (config.Timeout (config.Advanced cfg)) +:+ "秒" +:+ nl) st in
    let st := sys_print ("  成本限制: $" +:+ config.fmt_f2 host (config.CostLimit (config.Advanced cfg)) +:+ nl) st in
    let st := sys_print (nl +:+ "已配置的提供商:" +:+ nl) st in
    show_providers host (config.range_map host 1 (config.Providers cfg)) st
  end.

(** A provider with its key, if any, replaced by a fixed mark, and a
    configuration with every provider so treated. *)
Definition redact (p : ProviderConfig) : ProviderConfig :=
  if String.eqb (APIKey p) "" then p else config.set_APIKey "*" p.

Definition redact_config (c : config.Config) : config.Config :=
  {| config.Providers := redact <$> config.Providers c;
     config.Default := config.Default c;
     config.Advanced := config.Advanced c;
     config.Logging := config.Logging c |}.

(** The host in which viper holds [c]. *)
Definition with_config (host : config.Host) (c : config.Config) : config.Host :=
  {| config.Getenv := config.Getenv host;
     config.UserHomeDir := config.UserHomeDir host;
     config.filepath_Join := config.filepath_Join host;
     config.Stat_ok := config.Stat_ok host;
     config.MkdirAll := config.MkdirAll host;
     config.WriteFile := config.WriteFile host;
     config.viper_ReadInConfig := config.viper_ReadInConfig host;
     config.viper_Unmarshal := inr c;
     config.viper_WriteConfig := config.viper_WriteConfig host;
     config.range_map := config.range_map host;
     config.fmt_f2 := config.fmt_f2 host;
     config.unicode_ToUpper := config.unicode_ToUpper host |}.

Definition empty_sys : Sys :=
  {| sys_out := []; made := []; written := []; GlobalConfig := None |}.

Definition redact_entry (e : string * ProviderConfig) : string * ProviderConfig :=
  (fst e, redact (snd e)).

(** The order in which the providers are visited does not depend on the
    values of the keys. *)
Definition order_ignores_keys (host : config.Host) (c : config.Config) : Prop :=
  forall k,
    config.range_map host k (redact <$> config.Providers c)
    = map redact_entry (config.range_map host k (config.Providers c)).

(** ** Package providers (internal/providers/provider.go) *)

Module providers.

(** A Go error value.  The field Cause has the interface type error, so a
    cause is nil ([None]), a ProviderError, or an error of any other type;
    such an error is given by the string its method Error returns and by
    what unwrapping it gives ([None] when its type has no method Unwrap, or
    when that method returns nil). *)
Local Unset Elimination Schemes.
Inductive goerror :=
| otherError (msg : string) (inner : option goerror)
| ProviderError (Provider Code Message : string) (Cause : option goerror).
Local Set Elimination Schemes.

(** The method Error.  ProviderError's quotes the message of its cause; the
    message of an error of another type is whatever that type returns. *)
Fixpoint Error (e : goerror) : string :=
  match e with
  | otherError msg _ => msg
  | ProviderError provider _ message (Some cause) =>
    provider +:+ ": " +:+ message +:+ " (" +:+ Error cause +:+ ")"
  | ProviderError provider _ message None => provider +:+ ": " +:+ message
  end.

(** The method Unwrap, as errors.Unwrap calls it: ProviderError's returns
    the field Cause, an error of another type answers for itself. *)
Definition Unwrap (e : goerror) : option goerror :=
  match e with
  | otherError _ inner => inner
  | ProviderError _ _ _ cause => cause
  end.

Definition NewProviderError (provider code message : string)
    (cause : option goerror) : goerror :=
  ProviderError provider code message cause.

(** The errors reached from [e] by Unwrap, [e] first. *)
Fixpoint chain (e : goerror) : list goerror :=
  match e with
  | otherError _ (Some inner) => e :: chain inner
  | otherError _ None => [e]
  | ProviderError _ _ _ (Some cause) => e :: chain cause
  | ProviderError _ _ _ None => [e]
  end.

(** The errors whose method Error is called when the message of [e] is
    built: [e], and the cause of each ProviderError among them.  An error
    of another type ends the list, whatever it unwraps to. *)
Fixpoint quoted (e : goerror) : list goerror :=
  match e with
  | otherError _ _ => [e]
  | ProviderError _ _ _ (Some cause) => e :: quoted cause
  | ProviderError _ _ _ None => [e]
  end.

End providers.

(** Every byte of [s] is a printable ASCII character other than the
    space. *)
Fixpoint printable_word (s : string) : bool :=
  match s with
  | EmptyString => true
  | String c t => (33 <=? byte_val c) && (byte_val c <=? 126) && printable_word t
  end.

Definition session_commands : list string :=
  ["quit"; "exit"; "clear"; "reset"; "history"; "help"].

(** * Proofs *)

(** ** The chat client *)

Ltac mocked_api H :=
  let Hm := fresh "Hmarshal" in
  let Hn := fresh "Hnew" in
  let Hd := fresh "Hdo" in
  destruct H as (Hm & Hn & Hd);
  unfold askQuestionWithHistory; cbv zeta;
  match goal with
  | |- context [json_Marshal ?e ?r] =>
    let data := fresh "data" in destruct (Hm r) as [data ->]
  end;
  rewrite Hn, Hd.

Lemma ask_success env providerCfg q w resp chatResp c cs :
  api_returns env resp ->
  StatusCode resp = 200 ->
  BodyJSON resp = inr chatResp ->
  Choices chatResp = c :: cs ->
  exists w',
    askQuestionWithHistory env providerCfg q w = (None, w')
    /\ history w' =
       history w ++ [user_msg q; assistant_msg (Content (choice_Message c))].
Proof.
  intros Hapi Hst Hjs Hch. mocked_api Hapi.
  rewrite Hst, Hjs, Hch. cbn [Z.eqb Pos.eqb negb].
  eexists. split; [reflexivity|].
  cbn [history fmt_Print fmt_Println append_message set_history log_request].
  rewrite <- app_assoc. reflexivity.
Qed.

Lemma ask_nil_grows env providerCfg q w w' :
  askQuestionWithHistory env providerCfg q w = (None, w') ->
  exists answer, history w' = history w ++ [user_msg q; assistant_msg answer].
Proof.
  unfold askQuestionWithHistory; cbv zeta.
  destruct (json_Marshal env _); [discriminate|].
  destruct (http_NewRequest env _ _ _); [discriminate|].
  destruct (client_Do env _ _) as [|resp]; [discriminate|].
  destruct (negb _); [discriminate|].
  destruct (BodyJSON resp) as [|chatResp]; [discriminate|].
  destruct (Choices chatResp) as [|c cs]; [discriminate|].
  intros [= <-]. exists (Content (choice_Message c)).
  cbn [history fmt_Print fmt_Println append_message set_history log_request].
  rewrite <- app_assoc. reflexivity.
Qed.

Lemma ask_all_grows env providerCfg qs :
  forall w errs w',
    ask_all env providerCfg qs w = (errs, w') ->
    Forall (eq None) errs ->
    length (history w') = (length (history w) + 2 * length qs)%nat.
Proof.
  induction qs as [|q qs IH]; intros w errs w' Hrun Hok; cbn [ask_all] in Hrun.
  - injection Hrun as <- <-. cbn [length]. lia.
  - destruct (askQuestionWithHistory env providerCfg q w) as [e w1] eqn:Hq.
    destruct (ask_all env providerCfg qs w1) as [es w2] eqn:Hqs.
    injection Hrun as <- <-.
    inversion Hok as [|? ? He Hes]; subst.
    destruct (ask_nil_grows _ _ _ _ _ Hq) as [answer Hh].
    rewrite (IH _ _ _ Hqs Hes), Hh, length_app. cbn [length]. lia.
Qed.

Lemma turnCount_even (h : list Message) (n : nat) :
  length h = (2 * n)%nat -> turnCount h = Z.of_nat n.
Proof.
  intros Hlen. unfold turnCount. rewrite Hlen, Nat2Z.inj_mul.
  rewrite Z.mul_comm. apply Z.quot_mul. discriminate.
Qed.

(** C1. A successful exchange (HTTP 200 with at least one choice) returns
    no error and appends to the history the user question followed by the
    assistant answer, the content of the first choice; after N exchanges
    without error from an empty history the history has 2N messages and the
    turn count is N. *)
Theorem C1_successful_exchange_appends_turn :
  (forall env providerCfg q w resp chatResp c cs,
      api_returns env resp ->
      StatusCode resp = 200 ->
      BodyJSON resp = inr chatResp ->
      Choices chatResp = c :: cs ->
      exists w',
        askQuestionWithHistory env providerCfg q w = (None, w')
        /\ history w' =
           history w ++ [user_msg q; assistant_msg (Content (choice_Message c))]
        /\ length (history w') = (length (history w) + 2)%nat)
  /\ (forall env providerCfg qs w errs w',
         history w = [] ->
         ask_all env providerCfg qs w = (errs, w') ->
         Forall (eq None) errs ->
         length (history w') = (2 * length qs)%nat
         /\ turnCount (history w') = Z.of_nat (length qs)).
Proof.
  split.
  - intros env providerCfg q w resp chatResp c cs Hapi Hst Hjs Hch.
    destruct (ask_success env providerCfg q w _ _ _ _ Hapi Hst Hjs Hch)
      as (w' & Hrun & Hh).
    exists w'. repeat split; trivial.
    rewrite Hh, length_app. reflexivity.
  - intros env providerCfg qs w errs w' Hempty Hrun Hok.
    pose proof (ask_all_grows _ _ _ _ _ _ Hrun Hok) as Hlen.
    rewrite Hempty in Hlen. cbn [length] in Hlen.
    split; [lia|]. apply turnCount_even. lia.
Qed.

Lemma mock_env_api_returns (resp : HttpResponse) :
  api_returns (mock_env (fun _ => resp)) resp.
Proof.
  repeat split; intros; cbn; eauto.
Defined.

Lemma C1_witness :
  (exists w',
      askQuestionWithHistory (mock_env (fun _ => ok_response "hello"))
        demo_provider "hi" empty_world = (None, w')
      /\ history w' = [] ++ [user_msg "hi"; assistant_msg "hello"]
      /\ length (history w') = 2%nat)
  /\ (let run := ask_all (mock_env (fun _ => ok_response "hello"))
                   demo_provider ["a"; "b"; "c"] empty_world in
      length (history (snd run)) = 6%nat /\ turnCount (history (snd run)) = 3).
Proof.
  split.
  - apply (proj1 C1_successful_exchange_appends_turn
             (mock_env (fun _ => ok_response "hello")) demo_provider "hi"
             empty_world (ok_response "hello")
             {| Choices := [ {| choice_Message := assistant_msg "hello" |} ];
                resp_Usage := usage_10_5_15 |}
             {| choice_Message := assistant_msg "hello" |} []).
    + apply mock_env_api_returns.
    + reflexivity.
    + reflexivity.
    + reflexivity.
  - apply (proj2 C1_successful_exchange_appends_turn
             (mock_env (fun _ => ok_response "hello")) demo_provider
             ["a"; "b"; "c"] empty_world
             (fst (ask_all (mock_env (fun _ => ok_response "hello"))
                     demo_provider ["a"; "b"; "c"] empty_world))).
    + reflexivity.
    + vm_compute. reflexivity.
    + vm_compute. repeat constructor.
Defined.

(** C2 as stated fails on a history of odd length: a second failed
    exchange leaves two user messages. *)
Lemma C2_counterexample :
  let w := set_history [user_msg "first"] empty_world in
  let run := askQuestionWithHistory (mock_env (fun _ => empty_response))
               demo_provider "second" w in
  fst run = Some EmptyResponseError
  /\ history (snd run) = [user_msg "first"; user_msg "second"]
  /\ Nat.odd (length (history (snd run))) = false.
Proof.
  vm_compute. repeat split.
Qed.

(** C2, amended. When the API answers HTTP 200 with zero choices, send
    fails with EmptyResponseError and the history is the old history
    followed by the user message alone: its length grows by one, and is odd
    whenever the old length was even (as it is when every earlier exchange
    completed). *)
Theorem C2_empty_response_keeps_user_message
    env providerCfg q w resp chatResp :
  api_returns env resp ->
  StatusCode resp = 200 ->
  BodyJSON resp = inr chatResp ->
  Choices chatResp = [] ->
  exists w',
    askQuestionWithHistory env providerCfg q w = (Some EmptyResponseError, w')
    /\ history w' = history w ++ [user_msg q]
    /\ length (history w') = S (length (history w))
    /\ (Nat.even (length (history w)) = true ->
        Nat.odd (length (history w')) = true).
Proof.
  intros Hapi Hst Hjs Hch. mocked_api Hapi.
  rewrite Hst, Hjs, Hch. cbn [Z.eqb Pos.eqb negb].
  eexists. split; [reflexivity|].
  cbn [history fmt_Print fmt_Println append_message set_history log_request].
  rewrite length_app. cbn [length].
  replace (length (history w) + 1)%nat with (S (length (history w))) by lia.
  repeat split. intros Hev. rewrite Nat.odd_succ. exact Hev.
Qed.

Lemma C2_witness :
  exists w',
    askQuestionWithHistory (mock_env (fun _ => empty_response)) demo_provider
      "hi" empty_world = (Some EmptyResponseError, w')
    /\ history w' = [] ++ [user_msg "hi"]
    /\ length (history w') = 1%nat
    /\ (Nat.even 0 = true -> Nat.odd (length (history w')) = true).
Proof.
  apply (C2_empty_response_keeps_user_message
           (mock_env (fun _ => empty_response)) demo_provider "hi" empty_world
           empty_response {| Choices := []; resp_Usage := usage_10_5_15 |}).
  - apply mock_env_api_returns.
  - reflexivity.
  - reflexivity.
  - reflexivity.
Defined.

Lemma append_cons (x : ascii) (a b : string) :
  String x a +:+ b = String x (a +:+ b).
Proof. reflexivity. Qed.

Lemma append_nil_l (a : string) : EmptyString +:+ a = a.
Proof. reflexivity. Qed.

Lemma append_assoc (a b c : string) : (a +:+ b) +:+ c = a +:+ (b +:+ c).
Proof.
  induction a as [|x a IH]; [reflexivity|].
  rewrite !append_cons. now rewrite IH.
Qed.

Lemma append_nil_r (a : string) : a +:+ EmptyString = a.
Proof.
  induction a as [|x a IH]; [reflexivity|].
  rewrite append_cons. now rewrite IH.
Qed.

Lemma length_append (a b : string) :
  String.length (a +:+ b) = (String.length a + String.length b)%nat.
Proof.
  induction a as [|x a IH]; [reflexivity|].
  rewrite append_cons. cbn [String.length]. now rewrite IH.
Qed.

(** C3. When the API answers with a status other than 200, send fails with
    an APIError whose message contains the decimal status code and the raw
    body text, and the history keeps the appended user message, with no
    assistant reply. *)
Theorem C3_api_error_reports_status_and_body env providerCfg q w resp :
  api_returns env resp ->
  StatusCode resp <> 200 ->
  exists w',
    askQuestionWithHistory env providerCfg q w
    = (Some (APIError (StatusCode resp) (BodyText resp)), w')
    /\ contains (fmt_d (StatusCode resp))
         (Error (APIError (StatusCode resp) (BodyText resp)))
    /\ contains (BodyText resp)
         (Error (APIError (StatusCode resp) (BodyText resp)))
    /\ history w' = history w ++ [user_msg q].
Proof.
  intros Hapi Hst. mocked_api Hapi.
  apply Z.eqb_neq in Hst. rewrite Hst. cbn [negb].
  eexists. split; [reflexivity|]. repeat split.
  - exists "API返回错误 ", (": " +:+ BodyText resp). reflexivity.
  - exists ("API返回错误 " +:+ fmt_d (StatusCode resp) +:+ ": "), EmptyString.
    unfold Error. now rewrite append_nil_r, !append_assoc.
Qed.

Lemma C3_witness :
  exists w',
    askQuestionWithHistory (mock_env (fun _ => error_response 401 "invalid key"))
      demo_provider "hi" empty_world
    = (Some (APIError 401 "invalid key"), w')
    /\ contains "401" (Error (APIError 401 "invalid key"))
    /\ contains "invalid key" (Error (APIError 401 "invalid key"))
    /\ history w' = [] ++ [user_msg "hi"].
Proof.
  apply (C3_api_error_reports_status_and_body
           (mock_env (fun _ => error_response 401 "invalid key")) demo_provider
           "hi" empty_world (error_response 401 "invalid key")).
  - apply mock_env_api_returns.
  - cbn. lia.
Defined.

(** ** The session loop *)

Lemma loop_body_reset env providerCfg w :
  loop_body env providerCfg "reset" w = Continue (fmt_Println msg_reset (reset w)).
Proof. vm_compute. reflexivity. Qed.

Lemma loop_body_quit env providerCfg w :
  loop_body env providerCfg "quit" w = Return (fmt_Println msg_goodbye w).
Proof. vm_compute. reflexivity. Qed.

(** C9. The reset empties the history, whatever it held: its length and
    its turn count are then 0.  In the interactive loop the input lines
    reset, quit print the reset confirmation, then the farewell, and the
    loop ends there; no request is sent. *)
Theorem C9_reset_then_quit_sends_nothing :
  (forall w,
      history (reset w) = []
      /\ Z.of_nat (length (history (reset w))) = 0
      /\ turnCount (history (reset w)) = 0)
  /\ (forall env providerCfg scanErr w,
         let w' := runInteractiveChatWithHistory env providerCfg
                     ["reset"; "quit"] scanErr w in
         stdout w' = stdout (print_banner w)
                     ++ ["👤 你: "; msg_reset +:+ nl; "👤 你: "; msg_goodbye +:+ nl]
         /\ sent w' = sent w
         /\ history w' = []
         /\ scanned w' = (scanned w + 2)%nat).
Proof.
  split.
  - intros w. repeat split.
  - intros env providerCfg scanErr w w'. subst w'.
    unfold runInteractiveChatWithHistory.
    cbn [interactive_loop]. rewrite loop_body_reset, loop_body_quit.
    repeat split.
    + unfold fmt_Println. cbn [stdout fmt_Print reset scan_one set_history].
      rewrite <- !app_assoc. reflexivity.
    + cbn [scanned fmt_Println fmt_Print reset scan_one set_history print_banner]. lia.
Qed.

Lemma ask_scanned env providerCfg q w :
  scanned (snd (askQuestionWithHistory env providerCfg q w)) = scanned w.
Proof.
  unfold askQuestionWithHistory; cbv zeta.
  repeat match goal with
         | |- context [match ?x with _ => _ end] => destruct x
         end; reflexivity.
Qed.

Lemma showHistory_loop_scanned msgs :
  forall i w, scanned (showHistory_loop i msgs w) = scanned w.
Proof.
  induction msgs as [|m msgs IH]; intros i w; cbn [showHistory_loop];
    [reflexivity|].
  rewrite IH. destruct (history_line i m); reflexivity.
Qed.

Lemma showHistory_scanned h w : scanned (showHistory h w) = scanned w.
Proof.
  destruct h as [|m h]; [reflexivity|].
  unfold showHistory. cbn [fmt_Print scanned].
  now rewrite showHistory_loop_scanned.
Qed.

Lemma echo_cleaned_scanned cleaned input w :
  scanned (echo_cleaned cleaned input w) = scanned w.
Proof. unfold echo_cleaned. destruct (negb _); reflexivity. Qed.

Lemma loop_body_scanned env providerCfg text w :
  scanned (flow_world (loop_body env providerCfg text w)) = scanned w.
Proof.
  unfold loop_body; cbv zeta.
  destruct (String.eqb (strings.TrimSpace text) ""); [reflexivity|].
  destruct (String.eqb (cleanInput _) ""); [reflexivity|].
  destruct (_ || _); [reflexivity|].
  destruct (String.eqb _ "clear"); [reflexivity|].
  destruct (String.eqb _ "reset"); [reflexivity|].
  destruct (String.eqb _ "history"); [apply showHistory_scanned|].
  destruct (String.eqb _ "help"); [reflexivity|].
  pose proof (ask_scanned env providerCfg (cleanInput (strings.TrimSpace text))
                (echo_cleaned (cleanInput (strings.TrimSpace text))
                   (strings.TrimSpace text) w)) as Hs.
  destruct (askQuestionWithHistory _ _ _ _) as [err w1].
  cbn [snd] in Hs. rewrite echo_cleaned_scanned in Hs.
  destruct err; cbn [flow_world fmt_Println fmt_Print scanned]; exact Hs.
Qed.

Lemma loop_body_return_iff env providerCfg text w :
  (exists w', loop_body env providerCfg text w = Return w')
  <-> quits env text = true.
Proof.
  unfold loop_body, quits; cbv zeta.
  destruct (String.eqb (strings.TrimSpace text) "");
    [split; [intros [? [=]] | intros [=]]|].
  destruct (String.eqb (cleanInput _) "");
    [split; [intros [? [=]] | intros [=]]|].
  cbn [negb andb].
  destruct (_ || _); [split; eauto|].
  split; [|intros [=]].
  repeat match goal with
         | |- context [if ?b then _ else _] => destruct b
         end; intros [w' Hret]; try discriminate Hret.
  destruct (askQuestionWithHistory _ _ _ _) as [err w1]. discriminate Hret.
Qed.

Lemma loop_body_question env providerCfg text w q :
  question_of env text = Some q ->
  q = cleanInput (strings.TrimSpace text)
  /\ loop_body env providerCfg text w =
     let (err, w1) :=
       askQuestionWithHistory env providerCfg q
         (echo_cleaned q (strings.TrimSpace text) w) in
     Continue (fmt_Println ""
                 match err with
                 | Some e => fmt_Println msg_hint (fmt_Print (msg_failed e) w1)
                 | None => w1
                 end).
Proof.
  unfold question_of, loop_body; cbv zeta. cbn [existsb].
  destruct (String.eqb (strings.TrimSpace text) ""); [discriminate|].
  destruct (String.eqb (cleanInput _) ""); [discriminate|].
  destruct (String.eqb _ "quit"); [discriminate|].
  destruct (String.eqb _ "exit"); [discriminate|].
  destruct (String.eqb _ "clear"); [discriminate|].
  destruct (String.eqb _ "reset"); [discriminate|].
  destruct (String.eqb _ "history"); [discriminate|].
  destruct (String.eqb _ "help"); [discriminate|].
  cbn [orb]. intros [= <-]. split; reflexivity.
Qed.

Lemma interactive_loop_scanned env providerCfg scanErr lines :
  forall w,
    scanned (interactive_loop env providerCfg lines scanErr w)
    = (scanned w + lines_read env lines)%nat.
Proof.
  induction lines as [|text rest IH]; intros w;
    cbn [interactive_loop lines_read].
  - destruct scanErr; cbn; lia.
  - pose proof (loop_body_scanned env providerCfg text
                  (scan_one (fmt_Print "👤 你: " w))) as Hs.
    pose proof (loop_body_return_iff env providerCfg text
                  (scan_one (fmt_Print "👤 你: " w))) as Hq.
    destruct (loop_body env providerCfg text _) as [w'|w'];
      cbn [flow_world] in Hs.
    + destruct (quits env text).
      * destruct Hq as [_ Hq]. destruct (Hq eq_refl) as [? [=]].
      * rewrite IH, Hs. cbn. lia.
    + destruct (quits env text).
      * rewrite Hs. cbn. lia.
      * destruct Hq as [Hq _]. discriminate Hq. eauto.
Qed.

(** C6. A turn of the interactive loop returns exactly on the commands
    quit and exit.  A turn in which send fails prints the error and the
    hint and goes on to the next prompt.  So a run reads its input up to
    the first quit or exit, or to its end, whatever the exchanges
    answered. *)
Theorem C6_exchange_error_never_ends_loop :
  (forall env providerCfg text w,
      (exists w', loop_body env providerCfg text w = Return w')
      <-> quits env text = true)
  /\ (forall env providerCfg text w q e w1,
         question_of env text = Some q ->
         askQuestionWithHistory env providerCfg q
           (echo_cleaned q (strings.TrimSpace text) w) = (Some e, w1) ->
         loop_body env providerCfg text w
         = Continue (fmt_Println "" (fmt_Println msg_hint (fmt_Print (msg_failed e) w1)))
         /\ contains (Error e) (msg_failed e))
  /\ (forall env providerCfg lines scanErr w,
         scanned (interactive_loop env providerCfg lines scanErr w)
         = (scanned w + lines_read env lines)%nat).
Proof.
  split; [exact loop_body_return_iff|]. split.
  - intros env providerCfg text w q e w1 Hq Hask.
    destruct (loop_body_question env providerCfg text w q Hq) as [_ Hbody].
    rewrite Hask in Hbody. split; [exact Hbody|].
    exists "❌ 对话失败: ", nl. reflexivity.
  - intros. apply interactive_loop_scanned.
Qed.

Lemma C6_witness :
  let env := mock_env (fun _ => error_response 500 "overloaded") in
  loop_body env demo_provider "hello" empty_world
  = Continue
      (fmt_Println ""
         (fmt_Println msg_hint
            (fmt_Print (msg_failed (APIError 500 "overloaded"))
               (snd (askQuestionWithHistory env demo_provider "hello"
                       empty_world)))))
  /\ contains (Error (APIError 500 "overloaded"))
       (msg_failed (APIError 500 "overloaded")).
Proof.
  intros env.
  apply (proj1 (proj2 C6_exchange_error_never_ends_loop) env demo_provider
           "hello" empty_world "hello" (APIError 500 "overloaded")).
  - vm_compute. reflexivity.
  - vm_compute. reflexivity.
Defined.

(** ** Start-up and single-shot mode *)

Lemma ask_history env providerCfg q w :
  exists tail,
    history (snd (askQuestionWithHistory env providerCfg q w))
    = history w ++ user_msg q :: tail.
Proof.
  unfold askQuestionWithHistory; cbv zeta.
  repeat match goal with
         | |- context [match ?x with _ => _ end] => destruct x
         end;
    cbn [snd history fmt_Print fmt_Println append_message set_history log_request];
    rewrite <- ?app_assoc; eexists; reflexivity.
Qed.

Lemma ask_sent env providerCfg q w :
  sent (snd (askQuestionWithHistory env providerCfg q w)) = sent w
  \/ exists r req,
      sent (snd (askQuestionWithHistory env providerCfg q w))
      = sent w ++ [(r, req)]
      /\ req_Messages r = history w ++ [user_msg q].
Proof.
  unfold askQuestionWithHistory; cbv zeta.
  repeat match goal with
         | |- context [match ?x with _ => _ end] => destruct x
         end;
    cbn [snd sent history fmt_Print fmt_Println append_message set_history log_request];
    solve [ left; reflexivity
          | right; eexists; eexists; split; reflexivity ].
Qed.

Lemma print_names_frame entries :
  forall w,
    history (print_names entries w) = history w
    /\ sent (print_names entries w) = sent w
    /\ scanned (print_names entries w) = scanned w.
Proof.
  induction entries as [|[name p] rest IH]; intros w; cbn [print_names].
  - repeat split.
  - destruct (IH (fmt_Print ("  • " +:+ name +:+ nl) w)) as (-> & -> & ->).
    repeat split.
Qed.

Lemma resolve_provider_frame env loaded w :
  let w' := snd (resolve_provider env loaded w) in
  history w' = history w /\ sent w' = sent w /\ scanned w' = scanned w.
Proof.
  unfold resolve_provider. destruct loaded as [err|cfg]; [repeat split|].
  cbv zeta.
  set (w1 := if String.eqb (chatProvider w) "" then _ else w).
  assert (Hw1 : history w1 = history w /\ sent w1 = sent w
                /\ scanned w1 = scanned w).
  { subst w1. destruct (String.eqb (chatProvider w) ""); [|repeat split].
    destruct (first_with_key _); repeat split. }
  destruct Hw1 as (Hh & Hs & Hn).
  destruct (Providers cfg !! chatProvider w1) as [p|].
  - destruct (String.eqb (APIKey p) ""); cbn; repeat split; assumption.
  - cbn [snd].
    destruct (print_names_frame (range_Providers env 1 (Providers cfg))
                (fmt_Println "📋 可用的提供商:"
                   (fmt_Print ("❌ 提供商 '" +:+ chatProvider w1 +:+ "' 未找到" +:+ nl) w1)))
      as (-> & -> & ->).
    repeat split; assumption.
Qed.

Lemma echo_cleaned_history cleaned input w :
  history (echo_cleaned cleaned input w) = history w.
Proof. unfold echo_cleaned. destruct (negb _); reflexivity. Qed.

Lemma ask_sends_payload env providerCfg q w :
  builds_requests env ->
  exists r req,
    sent (snd (askQuestionWithHistory env providerCfg q w)) = sent w ++ [(r, req)]
    /\ req_Messages r = history w ++ [user_msg q]
    /\ json_Marshal env r = inr (Body req).
Proof.
  intros [Hm Hn]. unfold askQuestionWithHistory; cbv zeta.
  set (model := if String.eqb (Model providerCfg) "" then _ else _).
  set (maxTokens := if MaxTokens providerCfg =? 0 then _ else _).
  set (baseURL := if String.eqb (BaseURL providerCfg) "" then _ else _).
  match goal with
  | |- context [json_Marshal env ?r] =>
    destruct (Hm r) as [data Hdata]; rewrite Hdata; exists r
  end.
  rewrite Hn. eexists. split.
  - destruct (client_Do env _ _) as [|resp]; [reflexivity|].
    destruct (negb _); [reflexivity|].
    destruct (BodyJSON resp) as [|chatResp]; [reflexivity|].
    destruct (Choices chatResp); reflexivity.
  - split; [reflexivity | exact Hdata].
Qed.

(** C10. In single-shot mode the positional argument reaches the history
    and the API as it is: the first message of the history is the user
    message with exactly that text, no line is read, at most one request is
    issued, and whenever the request can be built exactly one request is
    sent, whose payload holds that message alone and whose body is the
    encoding of that payload.  A line of the interactive loop that is sent
    as a question is recorded, and sent, as cleanInput left it. *)
Theorem C10_single_shot_question_bypasses_sanitizer :
  (forall env loaded question rest lines scanErr w providerCfg w0,
      resolve_provider env loaded w = (Some providerCfg, w0) ->
      let w' := runSimpleChat env loaded (question :: rest) lines scanErr w in
      (exists tail, history w' = user_msg question :: tail)
      /\ (sent w' = sent w
          \/ exists r req,
              sent w' = sent w ++ [(r, req)]
              /\ req_Messages r = [user_msg question])
      /\ (builds_requests env ->
          exists r req,
            sent w' = sent w ++ [(r, req)]
            /\ req_Messages r = [user_msg question]
            /\ json_Marshal env r = inr (Body req))
      /\ scanned w' = scanned w)
  /\ (forall env providerCfg text w q,
         question_of env text = Some q ->
         q = cleanInput (strings.TrimSpace text)
         /\ (exists tail,
                history (flow_world (loop_body env providerCfg text w))
                = history w
                  ++ user_msg (cleanInput (strings.TrimSpace text)) :: tail)
         /\ (builds_requests env ->
             exists r req,
               sent (flow_world (loop_body env providerCfg text w))
               = sent w ++ [(r, req)]
               /\ req_Messages r
                  = history w ++ [user_msg (cleanInput (strings.TrimSpace text))]
               /\ json_Marshal env r = inr (Body req))).
Proof.
  split.
  - intros env loaded question rest lines scanErr w providerCfg w0 Hres w'.
    subst w'. unfold runSimpleChat. rewrite Hres. cbv zeta.
    pose proof (resolve_provider_frame env loaded w) as Hfr.
    rewrite Hres in Hfr. cbn [snd] in Hfr. destruct Hfr as (_ & Hs0 & Hn0).
    match goal with
    | |- context [askQuestionWithHistory env providerCfg question ?x] =>
      set (wq := x)
    end.
    assert (Hwq : history wq = [] /\ sent wq = sent w0 /\ scanned wq = scanned w0).
    { subst wq. repeat match goal with
                       | |- context [if ?b then _ else _] => destruct b
                       end; repeat split. }
    destruct Hwq as (Hh & Hs & Hn).
    pose proof (ask_history env providerCfg question wq) as [tail Ht].
    pose proof (ask_sent env providerCfg question wq) as Hsent.
    pose proof (ask_sends_payload env providerCfg question wq) as Hpay.
    pose proof (ask_scanned env providerCfg question wq) as Hsc.
    destruct (askQuestionWithHistory env providerCfg question wq) as [err w1].
    cbn [snd] in Ht, Hsent, Hpay, Hsc.
    rewrite Hh in Ht. rewrite Hh, Hs, Hs0 in Hsent. rewrite Hh, Hs, Hs0 in Hpay.
    rewrite Hn, Hn0 in Hsc.
    assert (Hfin : forall w2,
               history w2 = history w1 -> sent w2 = sent w1 ->
               scanned w2 = scanned w1 ->
               (exists tail, history w2 = user_msg question :: tail)
               /\ (sent w2 = sent w
                   \/ exists r req,
                       sent w2 = sent w ++ [(r, req)]
                       /\ req_Messages r = [user_msg question])
               /\ (builds_requests env ->
                   exists r req,
                     sent w2 = sent w ++ [(r, req)]
                     /\ req_Messages r = [user_msg question]
                     /\ json_Marshal env r = inr (Body req))
               /\ scanned w2 = scanned w).
    { intros w2 -> -> ->.
      split; [|split; [|split]]; [eauto | exact Hsent | exact Hpay | exact Hsc]. }
    destruct err; apply Hfin; reflexivity.
  - intros env providerCfg text w q Hq.
    destruct (loop_body_question env providerCfg text w q Hq) as [-> Hbody].
    split; [reflexivity|]. rewrite Hbody.
    set (cleaned := cleanInput (strings.TrimSpace text)).
    set (we := echo_cleaned cleaned (strings.TrimSpace text) w).
    assert (Hwe : history we = history w /\ sent we = sent w).
    { subst we. unfold echo_cleaned. destruct (negb _); split; reflexivity. }
    destruct Hwe as [Hhe Hse].
    pose proof (ask_history env providerCfg cleaned we) as [tail Ht].
    pose proof (ask_sends_payload env providerCfg cleaned we) as Hpay.
    destruct (askQuestionWithHistory env providerCfg cleaned we) as [err w1].
    cbn [snd] in Ht, Hpay. rewrite Hhe in Ht. rewrite Hhe, Hse in Hpay.
    split.
    + exists tail. destruct err; exact Ht.
    + intros Hb. destruct (Hpay Hb) as (r & req & Hs & Hm & Hbody').
      exists r, req. split; [|split; assumption].
      destruct err; exact Hs.
Qed.

Lemma mock_env_builds_requests (answer : nat -> HttpResponse) :
  builds_requests (mock_env answer).
Proof.
  split; intros; cbn; eauto.
Defined.

Lemma C10_witness :
  let env := mock_env (fun _ => ok_response "hello") in
  let loaded : string + Config :=
    inr {| Providers := {[ "demo" := demo_provider ]} |} in
  (let w' := runSimpleChat env loaded [raw_question] [] None empty_world in
   (exists tail, history w' = user_msg raw_question :: tail)
   /\ (exists r req,
          sent w' = [] ++ [(r, req)]
          /\ req_Messages r = [user_msg raw_question]
          /\ json_Marshal env r = inr (Body req))
   /\ scanned w' = O)
  /\ cleanInput raw_question = "a b"
  /\ ("a b" = cleanInput (strings.TrimSpace raw_question)
      /\ (exists tail,
             history (flow_world (loop_body env demo_provider raw_question
                                    empty_world))
             = [] ++ user_msg (cleanInput (strings.TrimSpace raw_question)) :: tail)
      /\ exists r req,
          sent (flow_world (loop_body env demo_provider raw_question empty_world))
          = [] ++ [(r, req)]
          /\ req_Messages r
             = [] ++ [user_msg (cleanInput (strings.TrimSpace raw_question))]
          /\ json_Marshal env r = inr (Body req)).
Proof.
  intros env loaded. split; [|split].
  - destruct (proj1 C10_single_shot_question_bypasses_sanitizer env loaded
                raw_question [] [] None empty_world demo_provider
                (snd (resolve_provider env loaded empty_world)))
      as (Hh & _ & Hsent & Hsc).
    + vm_compute. reflexivity.
    + split; [exact Hh|]. split; [|exact Hsc].
      apply Hsent. apply mock_env_builds_requests.
  - vm_compute. reflexivity.
  - destruct (proj2 C10_single_shot_question_bypasses_sanitizer env demo_provider
                raw_question empty_world "a b")
      as (Hq & Hh & Hsent).
    + vm_compute. reflexivity.
    + split; [exact Hq|]. split; [exact Hh|].
      apply Hsent. apply mock_env_builds_requests.
Defined.

Lemma first_with_key_Some entries name :
  first_with_key entries = Some name ->
  exists p, In (name, p) entries /\ has_key p.
Proof.
  induction entries as [|[n p] rest IH]; cbn [first_with_key]; [discriminate|].
  destruct (String.eqb (APIKey p) "") eqn:Hk; cbn [negb].
  - intros H. destruct (IH H) as (p' & Hin & Hp'). exists p'. split; [now right|assumption].
  - intros [= <-]. exists p. split; [now left|]. now apply String.eqb_neq.
Qed.

Lemma first_with_key_None entries :
  first_with_key entries = None ->
  forall name p, In (name, p) entries -> APIKey p = "".
Proof.
  induction entries as [|[n p] rest IH]; cbn [first_with_key]; [contradiction|].
  destruct (String.eqb (APIKey p) "") eqn:Hk; cbn [negb]; [|discriminate].
  intros H name p' [[= <- <-]|Hin]; [now apply String.eqb_eq | eauto].
Qed.

Lemma print_names_stdout entries :
  forall w, exists out, stdout (print_names entries w) = stdout w ++ out.
Proof.
  induction entries as [|[name p] rest IH]; intros w; cbn [print_names].
  - exists []. now rewrite app_nil_r.
  - destruct (IH (fmt_Print ("  • " +:+ name +:+ nl) w)) as [out ->].
    cbn [stdout fmt_Print]. rewrite <- app_assoc. eauto.
Qed.

Lemma resolve_provider_selects env cfg w :
  chatProvider w = "" ->
  range_Providers env 0 (Providers cfg) ≡ₚ map_to_list (Providers cfg) ->
  (exists name p, Providers cfg !! name = Some p /\ has_key p) ->
  exists name p,
    first_with_key (range_Providers env 0 (Providers cfg)) = Some name
    /\ Providers cfg !! name = Some p
    /\ has_key p
    /\ resolve_provider env (inr cfg) w
       = (Some p, fmt_Print ("💡 自动选择提供商: " +:+ name +:+ nl)
                    (set_chatProvider name w)).
Proof.
  intros Hnone Hperm (name0 & p0 & Hlook & Hkey).
  destruct (first_with_key (range_Providers env 0 (Providers cfg)))
    as [name|] eqn:Hfirst.
  - destruct (first_with_key_Some _ _ Hfirst) as (p & Hin & Hp).
    assert (Hp' : Providers cfg !! name = Some p).
    { apply elem_of_map_to_list, list_elem_of_In.
      eapply Permutation_in; [exact Hperm | exact Hin]. }
    exists name, p. repeat split; trivial.
    unfold resolve_provider. rewrite Hnone, Hfirst.
    cbn [String.eqb chatProvider fmt_Print set_chatProvider]. rewrite Hp'.
    apply String.eqb_neq in Hp. rewrite Hp. reflexivity.
  - exfalso. apply Hkey.
    apply (first_with_key_None _ Hfirst name0 p0).
    eapply Permutation_in; [symmetry; exact Hperm|].
    now apply list_elem_of_In, elem_of_map_to_list.
Qed.

Lemma resolve_provider_aborts env cfg w :
  (forall name p, Providers cfg !! name = Some p -> APIKey p = "") ->
  let r := resolve_provider env (inr cfg) w in
  fst r = None /\ config_error (chatProvider (snd r)) (snd r).
Proof.
  intros Hnokey. unfold resolve_provider. cbv zeta.
  set (w1 := if String.eqb (chatProvider w) "" then _ else w).
  destruct (Providers cfg !! chatProvider w1) as [p|] eqn:Hlook.
  - rewrite (Hnokey _ _ Hlook). cbn [String.eqb fst snd]. split; [reflexivity|].
    right. cbn [chatProvider stdout fmt_Print].
    apply in_or_app. left. apply in_or_app. left. apply in_or_app. right.
    now left.
  - cbn [fst snd]. split; [reflexivity|]. left.
    destruct (print_names_frame (range_Providers env 1 (Providers cfg))
                (fmt_Println "📋 可用的提供商:"
                   (fmt_Print ("❌ 提供商 '" +:+ chatProvider w1 +:+ "' 未找到" +:+ nl) w1)))
      as (_ & _ & _).
    destruct (print_names_stdout (range_Providers env 1 (Providers cfg))
                (fmt_Println "📋 可用的提供商:"
                   (fmt_Print ("❌ 提供商 '" +:+ chatProvider w1 +:+ "' 未找到" +:+ nl) w1)))
      as [out ->].
    assert (Hcp : forall entries w0,
               chatProvider (print_names entries w0) = chatProvider w0).
    { induction entries as [|[n q] rest IH]; intros w0; cbn [print_names];
        [reflexivity|]. now rewrite IH. }
    rewrite Hcp. cbn [chatProvider stdout fmt_Println fmt_Print].
    apply in_or_app. left. apply in_or_app. left. apply in_or_app. right.
    now left.
Qed.

(** C7 as stated fails: with two providers that both have a key, the
    provider selected depends on the order in which the map of providers
    is visited, which the configuration does not fix. *)
Lemma C7_counterexample :
  range_Providers (mock_env (fun _ => ok_response "hello")) 0
    (Providers two_providers) ≡ₚ map_to_list (Providers two_providers)
  /\ range_Providers mock_env_rev 0 (Providers two_providers)
     ≡ₚ map_to_list (Providers two_providers)
  /\ chatProvider (runSimpleChat (mock_env (fun _ => ok_response "hello"))
                     (inr two_providers) ["hi"] [] None empty_world)
     = "openai"
  /\ chatProvider (runSimpleChat mock_env_rev
                     (inr two_providers) ["hi"] [] None empty_world)
     = "free-oai".
Proof.
  split; [reflexivity|]. split; [symmetry; apply Permutation_rev|].
  split; vm_compute; reflexivity.
Qed.

(** C7, amended. When no provider is requested and some configured
    provider has a key, the session selects a configured provider with a
    non-empty key: the first one the iteration over the map of providers
    meets, in an order Go leaves unspecified.  When no configured provider
    has a key, runSimpleChat returns after printing a configuration error:
    nothing is read from the input, no request is sent and the history is
    untouched. *)
Theorem C7_selects_keyed_provider_or_aborts :
  (forall env cfg w,
      chatProvider w = "" ->
      range_Providers env 0 (Providers cfg) ≡ₚ map_to_list (Providers cfg) ->
      (exists name p, Providers cfg !! name = Some p /\ has_key p) ->
      exists name p,
        first_with_key (range_Providers env 0 (Providers cfg)) = Some name
        /\ Providers cfg !! name = Some p
        /\ has_key p
        /\ fst (resolve_provider env (inr cfg) w) = Some p
        /\ chatProvider (snd (resolve_provider env (inr cfg) w)) = name)
  /\ (forall env cfg args lines scanErr w,
         (forall name p, Providers cfg !! name = Some p -> APIKey p = "") ->
         let w' := runSimpleChat env (inr cfg) args lines scanErr w in
         fst (resolve_provider env (inr cfg) w) = None
         /\ w' = snd (resolve_provider env (inr cfg) w)
         /\ config_error (chatProvider w') w'
         /\ sent w' = sent w
         /\ scanned w' = scanned w
         /\ history w' = history w).
Proof.
  split.
  - intros env cfg w Hnone Hperm Hsome.
    destruct (resolve_provider_selects env cfg w Hnone Hperm Hsome)
      as (name & p & Hfirst & Hlook & Hkey & Hres).
    exists name, p. rewrite Hres. repeat split; trivial.
  - intros env cfg args lines scanErr w Hnokey w'.
    destruct (resolve_provider_aborts env cfg w Hnokey) as [Hnone Herr].
    destruct (resolve_provider_frame env (inr cfg) w) as (Hh & Hs & Hn).
    assert (Hw' : w' = snd (resolve_provider env (inr cfg) w)).
    { subst w'. unfold runSimpleChat.
      destruct (resolve_provider env (inr cfg) w) as [[p|] w1];
        [discriminate Hnone | reflexivity]. }
    rewrite Hw'. repeat split; trivial.
Qed.

Lemma C7_witness :
  (exists name p,
      first_with_key (range_Providers (mock_env (fun _ => ok_response "hello")) 0
                        (Providers two_providers)) = Some name
      /\ Providers two_providers !! name = Some p
      /\ has_key p
      /\ fst (resolve_provider (mock_env (fun _ => ok_response "hello"))
                (inr two_providers) empty_world) = Some p
      /\ chatProvider (snd (resolve_provider (mock_env (fun _ => ok_response "hello"))
                              (inr two_providers) empty_world)) = name)
  /\ (let w' := runSimpleChat mock_env_rev (inr keyless_config) [] ["hi"] None
                  empty_world in
      fst (resolve_provider mock_env_rev (inr keyless_config) empty_world) = None
      /\ w' = snd (resolve_provider mock_env_rev (inr keyless_config) empty_world)
      /\ config_error (chatProvider w') w'
      /\ sent w' = []
      /\ scanned w' = O
      /\ history w' = []).
Proof.
  split.
  - apply (proj1 C7_selects_keyed_provider_or_aborts
             (mock_env (fun _ => ok_response "hello")) two_providers empty_world).
    + reflexivity.
    + reflexivity.
    + exists "openai", (keyed "key-1"). split; [reflexivity | discriminate].
  - apply (proj2 C7_selects_keyed_provider_or_aborts
             mock_env_rev keyless_config [] ["hi"] None empty_world).
    intros name p Hlook. unfold keyless_config in Hlook. cbn [Providers] in Hlook.
    apply lookup_singleton_Some in Hlook. destruct Hlook as [_ <-]. reflexivity.
Defined.

(** ** UTF-8: decoding what was encoded *)

Ltac dm := Z.div_mod_to_equations; lia.

Ltac no_if b :=
  lazymatch b with
  | context [if _ then _ else _] => fail
  | _ => idtac
  end.

(** Case analysis on a condition that contains no other condition. *)
Ltac step_if :=
  match goal with
  | |- context [if ?b then _ else _] =>
    no_if b; let E := fresh "E" in destruct b eqn:E; try (exfalso; dm)
  end.

Lemma byte_val_range c : 0 <= byte_val c < 256.
Proof. unfold byte_val. pose proof (N_ascii_bounded c). lia. Qed.

Lemma byte_val_of z : 0 <= z < 256 -> byte_val (byte_of z) = z.
Proof.
  intros Hz. unfold byte_val, byte_of. rewrite N_ascii_embedding; lia.
Qed.

Lemma decode_encode r rest :
  utf8.ValidRune r = true ->
  utf8.DecodeRuneInString (utf8.EncodeRune r +:+ rest)
  = (r, String.length (utf8.EncodeRune r)).
Proof.
  unfold utf8.ValidRune, utf8.EncodeRune, utf8.in_range, utf8.MaxRune,
    utf8.surrogateMin, utf8.surrogateMax.
  intros Hv. cbv zeta.
  repeat step_if; rewrite ?append_cons, ?append_nil_l; cbn [String.length];
    unfold utf8.DecodeRuneInString, utf8.cont, utf8.accept_lo, utf8.accept_hi,
      utf8.in_range, utf8.RuneSelf, utf8.RuneError;
    rewrite ?byte_val_of by dm;
    repeat step_if; f_equal; dm.
Qed.

Ltac byte_ranges :=
  repeat match goal with
         | c : ascii |- _ =>
           lazymatch goal with
           | _ : 0 <= byte_val c < 256 |- _ => fail
           | _ => pose proof (byte_val_range c)
           end
         end.

(** Case analysis along the decoder. *)
Ltac decode_cases :=
  unfold utf8.DecodeRuneInString, utf8.cont, utf8.accept_lo, utf8.accept_hi,
    utf8.in_range, utf8.RuneSelf, utf8.RuneError;
  repeat first
    [ step_if
    | match goal with
      | |- context [match ?t with EmptyString => _ | String _ _ => _ end] =>
        is_var t; destruct t
      end ].

Lemma decode_valid s : utf8.ValidRune (fst (utf8.DecodeRuneInString s)) = true.
Proof.
  destruct s as [|c0 t]; [reflexivity|].
  decode_cases; cbn [fst]; byte_ranges;
    unfold utf8.ValidRune, utf8.surrogateMin, utf8.surrogateMax, utf8.MaxRune;
    dm.
Qed.

Lemma decode_size c0 t :
  (1 <= snd (utf8.DecodeRuneInString (String c0 t)) <= S (String.length t))%nat.
Proof.
  decode_cases; cbn [snd String.length]; lia.
Qed.

(** ** The decoding of a string into chunks *)

Lemma chunks_from_skip s :
  forall k, (k <= String.length s)%nat ->
            chunks_from k s = chunks (drop_bytes k s).
Proof.
  induction s as [|c t IH]; intros k Hk; cbn [String.length] in Hk.
  - destruct k; [reflexivity | lia].
  - destruct k as [|k]; [reflexivity|].
    cbn [chunks_from drop_bytes]. apply IH. lia.
Qed.

Lemma take_drop_bytes n s : take_bytes n s +:+ drop_bytes n s = s.
Proof.
  revert s. induction n as [|n IH]; intros [|c t]; try reflexivity.
  cbn [take_bytes drop_bytes]. rewrite append_cons. now rewrite IH.
Qed.

Lemma take_bytes_append a b : take_bytes (String.length a) (a +:+ b) = a.
Proof.
  induction a as [|c a IH]; [now destruct b|].
  rewrite append_cons. cbn [String.length take_bytes]. now rewrite IH.
Qed.

Lemma drop_bytes_append a b : drop_bytes (String.length a) (a +:+ b) = b.
Proof.
  induction a as [|c a IH]; [now destruct b|].
  rewrite append_cons. cbn [String.length drop_bytes]. exact IH.
Qed.

Lemma chunks_cons c0 t :
  chunks (String c0 t)
  = (fst (utf8.DecodeRuneInString (String c0 t)),
     take_bytes (snd (utf8.DecodeRuneInString (String c0 t))) (String c0 t))
    :: chunks (drop_bytes (snd (utf8.DecodeRuneInString (String c0 t)))
                 (String c0 t)).
Proof.
  pose proof (decode_size c0 t) as Hn.
  unfold chunks at 1. cbn [chunks_from].
  destruct (utf8.DecodeRuneInString (String c0 t)) as [r n].
  cbn [fst snd] in *. f_equal.
  destruct n as [|n]; [lia|].
  cbn [drop_bytes]. replace (S n - 1)%nat with n by lia.
  apply chunks_from_skip. lia.
Qed.

Lemma encode_nonempty r : exists c t, utf8.EncodeRune r = String c t.
Proof.
  unfold utf8.EncodeRune. cbv zeta.
  repeat match goal with
         | |- context [if ?b then _ else _] => destruct b
         end; eauto.
Qed.

Lemma chunks_encode r rest :
  utf8.ValidRune r = true ->
  chunks (utf8.EncodeRune r +:+ rest) = enc r :: chunks rest.
Proof.
  intros Hv. pose proof (decode_encode r rest Hv) as Hd.
  destruct (encode_nonempty r) as (c & t & He).
  rewrite He in Hd |- *. rewrite append_cons in Hd |- *.
  rewrite chunks_cons, Hd. cbn [fst snd].
  rewrite <- !append_cons, take_bytes_append, drop_bytes_append.
  unfold enc. now rewrite He.
Qed.

Lemma chunks_encode_all rs :
  Forall (fun r => utf8.ValidRune r = true) rs ->
  chunks (encode_all rs) = map enc rs.
Proof.
  induction 1 as [|r rs Hr Hrs IH]; [reflexivity|].
  unfold encode_all in *. cbn [map concat_bytes].
  rewrite chunks_encode by assumption. now rewrite IH.
Qed.

Lemma chunks_from_valid s :
  forall k, Forall (fun c => utf8.ValidRune (fst c) = true) (chunks_from k s).
Proof.
  induction s as [|c t IH]; intros k; cbn [chunks_from]; [constructor|].
  destruct k as [|k]; [|apply IH].
  pose proof (decode_valid (String c t)) as Hv.
  destruct (utf8.DecodeRuneInString (String c t)) as [r n].
  constructor; [exact Hv | apply IH].
Qed.

Lemma runes_valid s : Forall (fun r => utf8.ValidRune r = true) (runes s).
Proof.
  unfold runes, chunks. apply Forall_map, chunks_from_valid.
Qed.

Lemma bytes_of_chunks_from s :
  forall k, (k <= String.length s)%nat ->
            bytes_of (chunks_from k s) = drop_bytes k s.
Proof.
  induction s as [|c t IH]; intros k Hk; cbn [String.length] in Hk.
  - destruct k; [reflexivity | lia].
  - destruct k as [|k]; cbn [chunks_from drop_bytes]; [|apply IH; lia].
    pose proof (decode_size c t) as Hn.
    destruct (utf8.DecodeRuneInString (String c t)) as [r n].
    cbn [snd] in Hn. unfold bytes_of in *. cbn [map snd concat_bytes].
    rewrite IH by lia.
    destruct n as [|n]; [lia|].
    replace (S n - 1)%nat with n by lia.
    change (drop_bytes n t) with (drop_bytes (S n) (String c t)).
    apply take_drop_bytes.
Qed.

Lemma bytes_of_chunks s : bytes_of (chunks s) = s.
Proof.
  unfold chunks. rewrite bytes_of_chunks_from by lia. now destruct s.
Qed.

Lemma bytes_of_enc rs : bytes_of (map enc rs) = encode_all rs.
Proof.
  unfold bytes_of, encode_all. now rewrite map_map.
Qed.

Lemma runes_encode_all rs :
  Forall (fun r => utf8.ValidRune r = true) rs -> runes (encode_all rs) = rs.
Proof.
  intros Hv. unfold runes. rewrite chunks_encode_all by assumption.
  rewrite map_map. cbn [enc fst]. apply map_id.
Qed.

(** ** Splitting, joining and trimming lists *)

Section SplittingFacts.
Context {A : Type} (sp : A -> bool).

Lemma split_on_words l :
  forall cur, Forall (fun x => sp x = false) cur ->
              Forall (word sp) (split_on sp cur l).
Proof.
  induction l as [|x l IH]; intros cur Hcur; cbn [split_on].
  - destruct cur; [constructor|]. constructor; [|constructor].
    split; [discriminate | assumption].
  - destruct (sp x) eqn:Hx.
    + destruct cur as [|y cur]; [apply IH; constructor|].
      constructor; [|apply IH; constructor].
      split; [discriminate | assumption].
    + apply IH. apply Forall_app. split; [assumption|].
      constructor; [assumption | constructor].
Qed.

Lemma split_on_app_word w :
  forall cur rest,
    Forall (fun x => sp x = false) w ->
    split_on sp cur (w ++ rest) = split_on sp (cur ++ w) rest.
Proof.
  induction w as [|x w IH]; intros cur rest Hw; cbn [app split_on].
  - now rewrite app_nil_r.
  - inversion Hw as [|? ? Hx Hw']; subst. rewrite Hx.
    rewrite IH by assumption. now rewrite <- app_assoc.
Qed.

Lemma split_on_join sep ws :
  sp sep = true -> Forall (word sp) ws ->
  split_on sp [] (join_with sep ws) = ws.
Proof.
  intros Hsep. induction 1 as [|w ws [Hne Hw] Hws IH]; [reflexivity|].
  cbn [join_with]. destruct ws as [|w' ws'].
  - rewrite <- (app_nil_r w) at 1. rewrite split_on_app_word by assumption.
    cbn [app split_on]. destruct w; [contradiction | reflexivity].
  - rewrite split_on_app_word by assumption. cbn [app split_on].
    rewrite Hsep, IH. destruct w; [contradiction | reflexivity].
Qed.

Lemma concat_split_on l :
  forall cur,
    concat (split_on sp cur l)
    = cur ++ List.filter (fun x => negb (sp x)) l.
Proof.
  induction l as [|x l IH]; intros cur; cbn [split_on List.filter].
  - destruct cur; [reflexivity|]. cbn [concat]. now rewrite !app_nil_r.
  - destruct (sp x); cbn [negb].
    + destruct cur; [apply IH|]. cbn [concat]. now rewrite IH.
    + rewrite IH. now rewrite <- app_assoc.
Qed.

Lemma filter_join sep ws :
  sp sep = true -> Forall (word sp) ws ->
  List.filter (fun x => negb (sp x)) (join_with sep ws) = concat ws.
Proof.
  intros Hsep.
  assert (Hw : forall w, Forall (fun x => sp x = false) w ->
                         List.filter (fun x => negb (sp x)) w = w).
  { induction 1 as [|x w Hx Hw IH]; [reflexivity|].
    cbn [List.filter]. rewrite Hx. cbn [negb]. now rewrite IH. }
  induction 1 as [|w ws [Hne Hwd] Hws IH]; [reflexivity|].
  cbn [join_with concat]. destruct ws as [|w' ws'].
  - cbn [concat]. rewrite app_nil_r. now apply Hw.
  - rewrite List.filter_app. cbn [List.filter]. rewrite Hsep. cbn [negb].
    rewrite IH. now rewrite Hw.
Qed.

Lemma Forall_join (P : A -> Prop) sep ws :
  P sep -> Forall (Forall P) ws -> Forall P (join_with sep ws).
Proof.
  intros Hsep. induction 1 as [|w ws Hw Hws IH]; [constructor|].
  cbn [join_with]. destruct ws; [assumption|].
  apply Forall_app. split; [assumption|]. now constructor.
Qed.

Lemma Forall_split_on (P : A -> Prop) l :
  forall cur, Forall P cur -> Forall P l -> Forall (Forall P) (split_on sp cur l).
Proof.
  induction l as [|x l IH]; intros cur Hcur Hl; cbn [split_on].
  - destruct cur; [constructor|]. constructor; [assumption | constructor].
  - inversion Hl as [|? ? Hx Hl']; subst. destruct (sp x).
    + destruct cur; [apply IH; [constructor | assumption]|].
      constructor; [assumption|]. apply IH; [constructor | assumption].
    + apply IH; [|assumption]. apply Forall_app. split; [assumption|].
      now constructor.
Qed.

Lemma drop_while_head x l : sp x = false -> drop_while sp (x :: l) = x :: l.
Proof. intros Hx. cbn [drop_while]. now rewrite Hx. Qed.

Lemma trim_ends x l y :
  sp x = false -> sp y = false -> trim sp (x :: l ++ [y]) = x :: l ++ [y].
Proof.
  intros Hx Hy. unfold trim. rewrite drop_while_head by assumption.
  change (x :: l ++ [y]) with ((x :: l) ++ [y]).
  rewrite rev_app_distr. cbn [rev app].
  rewrite drop_while_head by assumption.
  change (y :: rev l ++ [x]) with (rev [y] ++ rev (x :: l)).
  rewrite <- rev_app_distr. apply rev_involutive.
Qed.

Lemma trim_single x : sp x = false -> trim sp [x] = [x].
Proof.
  intros Hx. unfold trim. rewrite drop_while_head by assumption.
  cbn [rev app]. now rewrite drop_while_head.
Qed.

Lemma trim_trimmed l : trimmed sp l -> trim sp l = l.
Proof.
  intros [->|[(x & -> & Hx)|(x & m & y & -> & Hx & Hy)]];
    [reflexivity | now apply trim_single | now apply trim_ends].
Qed.

Lemma word_trimmed w : word sp w -> trimmed sp w.
Proof.
  intros [Hne Hw]. destruct w as [|x w]; [contradiction|].
  destruct (exists_last (l := x :: w)) as (m & y & Hm); [discriminate|].
  assert (Hy : sp y = false).
  { rewrite Hm in Hw. apply Forall_app in Hw. destruct Hw as [_ Hw].
    now inversion Hw. }
  inversion Hw as [|? ? Hx _]; subst.
  destruct m as [|x' m]; cbn [app] in Hm.
  - injection Hm as -> ->. right. left. eauto.
  - injection Hm as -> ->. right. right. eauto 10.
Qed.

Lemma trimmed_app_sep l1 sep l2 :
  trimmed sp l1 -> l1 <> [] -> trimmed sp l2 -> l2 <> [] ->
  trimmed sp (l1 ++ sep :: l2).
Proof.
  intros H1 Hn1 H2 Hn2. right. right.
  assert (Hfirst : exists x t, l1 = x :: t /\ sp x = false).
  { destruct H1 as [->|[(x & -> & Hx)|(x & m & y & -> & Hx & _)]];
      [contradiction | eauto | eauto]. }
  assert (Hlast : exists t y, l2 = t ++ [y] /\ sp y = false).
  { destruct H2 as [->|[(x & -> & Hx)|(x & m & y & -> & _ & Hy)]];
      [contradiction | exists [], x; eauto | exists (x :: m), y; eauto]. }
  destruct Hfirst as (x & t & -> & Hx). destruct Hlast as (t' & y & -> & Hy).
  exists x, (t ++ sep :: t'), y. repeat split; trivial.
  cbn [app]. rewrite <- app_assoc. reflexivity.
Qed.

Lemma join_nonempty (sep : A) (w : list A) ws :
  w <> [] -> join_with sep (w :: ws) <> [].
Proof.
  intros Hw. cbn [join_with]. destruct ws; [assumption|].
  destruct w; [contradiction | discriminate].
Qed.

Lemma join_trimmed sep ws : Forall (word sp) ws -> trimmed sp (join_with sep ws).
Proof.
  induction 1 as [|w ws Hw Hws IH]; [now left|].
  cbn [join_with]. destruct ws as [|w' ws']; [now apply word_trimmed|].
  apply trimmed_app_sep; trivial.
  - now apply word_trimmed.
  - apply Hw.
  - apply join_nonempty. inversion Hws as [|? ? [Hne _] _]. exact Hne.
Qed.
End SplittingFacts.

Lemma split_on_map {A B : Type} (f : A -> B) (sp : B -> bool) l :
  forall cur,
    split_on sp (map f cur) (map f l)
    = map (map f) (split_on (fun a => sp (f a)) cur l).
Proof.
  induction l as [|x l IH]; intros cur; cbn [map split_on].
  - destruct cur; reflexivity.
  - destruct (sp (f x)).
    + destruct cur as [|y cur]; [apply (IH [])|].
      cbn [map]. f_equal. apply (IH []).
    + rewrite <- IH. now rewrite map_app.
Qed.

Lemma drop_while_map {A B : Type} (f : A -> B) (sp : B -> bool) l :
  drop_while sp (map f l) = map f (drop_while (fun a => sp (f a)) l).
Proof.
  induction l as [|x l IH]; [reflexivity|].
  cbn [map drop_while]. destruct (sp (f x)); [exact IH | reflexivity].
Qed.

Lemma trim_map {A B : Type} (f : A -> B) (sp : B -> bool) l :
  trim sp (map f l) = map f (trim (fun a => sp (f a)) l).
Proof.
  unfold trim. now rewrite drop_while_map, <- map_rev, drop_while_map, map_rev.
Qed.

(** ** The input sanitizer *)

Lemma Forall_filter_keeps {A} (P : A -> Prop) (f : A -> bool) l :
  Forall P l -> Forall P (List.filter f l).
Proof.
  induction 1 as [|x l Hx Hl IH]; [constructor|].
  cbn [List.filter]. destruct (f x); [now constructor | assumption].
Qed.

Lemma Forall_filter_true {A} (f : A -> bool) l :
  Forall (fun x => f x = true) (List.filter f l).
Proof.
  induction l as [|x l IH]; [constructor|].
  cbn [List.filter]. destruct (f x) eqn:Hx; [now constructor | assumption].
Qed.

Lemma filter_all {A} (f : A -> bool) l :
  Forall (fun x => f x = true) l -> List.filter f l = l.
Proof.
  induction 1 as [|x l Hx Hl IH]; [reflexivity|].
  cbn [List.filter]. rewrite Hx. now rewrite IH.
Qed.

Lemma encode_all_app a b : encode_all (a ++ b) = encode_all a +:+ encode_all b.
Proof.
  unfold encode_all. induction a as [|r a IH]; [reflexivity|].
  cbn [app map concat_bytes]. rewrite IH. now rewrite append_assoc.
Qed.

Lemma cleanInput_loop_spec rs :
  forall result hasValidChar,
    cleanInput_loop rs result hasValidChar
    = (result +:+ encode_all (List.filter retained rs),
       hasValidChar || existsb marks_valid (List.filter retained rs)).
Proof.
  induction rs as [|r rs IH]; intros result flag; cbn [cleanInput_loop List.filter].
  - unfold encode_all. cbn [map concat_bytes existsb].
    now rewrite append_nil_r, orb_false_r.
  - destruct (retained r); [|apply IH].
    rewrite IH. cbn [existsb]. unfold encode_all. cbn [map concat_bytes].
    rewrite append_assoc. f_equal.
    destruct (marks_valid r), flag; reflexivity.
Qed.

Lemma Fields_encode_all rs :
  Forall (fun r => utf8.ValidRune r = true) rs ->
  strings.Fields (encode_all rs)
  = map encode_all (split_on unicode.IsSpace [] rs).
Proof.
  intros Hv. unfold strings.Fields. rewrite chunks_encode_all by assumption.
  change (split_on strings.space_chunk [] (map enc rs))
    with (split_on strings.space_chunk (map enc []) (map enc rs)).
  rewrite split_on_map.
  change (fun a : Z => strings.space_chunk (enc a)) with unicode.IsSpace.
  rewrite map_map. apply map_ext. intros w. apply bytes_of_enc.
Qed.

Lemma Join_encode_all ws :
  strings.Join (map encode_all ws) " " = encode_all (join_with 32 ws).
Proof.
  induction ws as [|w ws IH]; [reflexivity|].
  cbn [map strings.Join join_with]. destruct ws as [|w' ws']; [reflexivity|].
  change (map encode_all (w' :: ws')) with (encode_all w' :: map encode_all ws') in *.
  rewrite IH.
  change (w ++ 32 :: join_with 32 (w' :: ws'))
    with (w ++ [32] ++ join_with 32 (w' :: ws')).
  now rewrite !encode_all_app.
Qed.

Lemma marks_valid_false r : marks_valid r = false -> unicode.IsSpace r = true.
Proof.
  unfold marks_valid. intros H.
  assert (Hr : r = 32 \/ r = 9) by lia.
  destruct Hr as [-> | ->]; reflexivity.
Qed.

Lemma split_on_spaces {A} (sp : A -> bool) l :
  Forall (fun x => sp x = true) l -> split_on sp [] l = [].
Proof.
  induction 1 as [|x l Hx Hl IH]; [reflexivity|].
  cbn [split_on]. now rewrite Hx.
Qed.

Lemma existsb_false_Forall {A} (f : A -> bool) l :
  existsb f l = false -> Forall (fun x => f x = false) l.
Proof.
  induction l as [|x l IH]; [constructor|].
  cbn [existsb]. intros H. apply orb_false_iff in H. destruct H.
  constructor; auto.
Qed.

(** The code agrees with the description on code points. *)
Lemma cleanInput_runes s :
  cleanInput s = encode_all (clean_runes (runes (strings.TrimSpace s))).
Proof.
  unfold cleanInput, clean_runes. rewrite cleanInput_loop_spec.
  rewrite append_nil_l. cbn [orb].
  set (kept := List.filter retained (runes (strings.TrimSpace s))).
  assert (Hv : Forall (fun r => utf8.ValidRune r = true) kept).
  { apply Forall_filter_keeps, runes_valid. }
  destruct (existsb marks_valid kept) eqn:Hex; cbn [negb].
  - rewrite Fields_encode_all by assumption. apply Join_encode_all.
  - rewrite split_on_spaces; [reflexivity|].
    apply existsb_false_Forall in Hex.
    eapply List.Forall_impl; [|exact Hex]. apply marks_valid_false.
Qed.

Lemma clean_runes_words rs :
  Forall (word unicode.IsSpace)
    (split_on unicode.IsSpace [] (List.filter retained rs)).
Proof. apply split_on_words. constructor. Qed.

Lemma clean_runes_retained rs :
  Forall (fun r => retained r = true) (clean_runes rs).
Proof.
  unfold clean_runes. apply Forall_join; [reflexivity|].
  apply Forall_split_on; [constructor | apply Forall_filter_true].
Qed.

Lemma clean_runes_valid rs :
  Forall (fun r => utf8.ValidRune r = true) rs ->
  Forall (fun r => utf8.ValidRune r = true) (clean_runes rs).
Proof.
  intros Hv. unfold clean_runes. apply Forall_join; [reflexivity|].
  apply Forall_split_on; [constructor | now apply Forall_filter_keeps].
Qed.

Lemma clean_runes_trimmed rs : trimmed unicode.IsSpace (clean_runes rs).
Proof. apply join_trimmed, clean_runes_words. Qed.

Lemma clean_runes_idempotent rs : clean_runes (clean_runes rs) = clean_runes rs.
Proof.
  unfold clean_runes at 1.
  rewrite (filter_all _ _ (clean_runes_retained rs)).
  unfold clean_runes.
  rewrite split_on_join; [reflexivity | reflexivity | apply clean_runes_words].
Qed.

Lemma TrimSpace_encode_all rs :
  Forall (fun r => utf8.ValidRune r = true) rs ->
  strings.TrimSpace (encode_all rs) = encode_all (trim unicode.IsSpace rs).
Proof.
  intros Hv. unfold strings.TrimSpace.
  rewrite chunks_encode_all by assumption.
  rewrite trim_map.
  change (fun a : Z => strings.space_chunk (enc a)) with unicode.IsSpace.
  apply bytes_of_enc.
Qed.

(** C5. The sanitizer is idempotent. *)
Theorem C5_cleanInput_idempotent (s : string) :
  cleanInput (cleanInput s) = cleanInput s.
Proof.
  rewrite (cleanInput_runes s).
  set (rs := runes (strings.TrimSpace s)).
  assert (Hv : Forall (fun r => utf8.ValidRune r = true) (clean_runes rs)).
  { apply clean_runes_valid, runes_valid. }
  rewrite cleanInput_runes.
  rewrite TrimSpace_encode_all by assumption.
  rewrite (trim_trimmed _ _ (clean_runes_trimmed rs)).
  rewrite runes_encode_all by assumption.
  now rewrite clean_runes_idempotent.
Qed.

(** ** TrimSpace on code points *)

(** Cutting a string after a whole rune does not change how that rune
    decodes. *)
Lemma decode_prefix p q :
  (snd (utf8.DecodeRuneInString (p +:+ q)) <= String.length p)%nat ->
  utf8.DecodeRuneInString p = utf8.DecodeRuneInString (p +:+ q).
Proof.
  destruct p as [|c0 p].
  - rewrite append_nil_l. destruct q as [|c q]; [reflexivity|].
    pose proof (decode_size c q). cbn [String.length]. lia.
  - destruct p as [|c1 [|c2 [|c3 p]]];
      rewrite ?append_cons, ?append_nil_l; cbn [String.length];
      decode_cases; cbn [snd]; intros; solve [reflexivity | lia].
Qed.

Lemma bytes_of_cons c cs : bytes_of (c :: cs) = snd c +:+ bytes_of cs.
Proof. reflexivity. Qed.

Lemma bytes_of_app a b : bytes_of (a ++ b) = bytes_of a +:+ bytes_of b.
Proof.
  induction a as [|c a IH]; [reflexivity|].
  cbn [app]. rewrite !bytes_of_cons, IH. now rewrite append_assoc.
Qed.

Lemma stable_chunks s : stable (chunks s).
Proof. unfold stable. now rewrite bytes_of_chunks. Qed.

Lemma stable_tail c cs : stable (c :: cs) -> stable cs.
Proof.
  unfold stable. intros H.
  destruct (bytes_of (c :: cs)) as [|c0 t] eqn:Hb; [discriminate H|].
  rewrite chunks_cons in H. injection H as _ H.
  rewrite <- H at 1. now rewrite bytes_of_chunks.
Qed.

Lemma take_bytes_length n s :
  (n <= String.length s)%nat -> String.length (take_bytes n s) = n.
Proof.
  revert s. induction n as [|n IH]; intros [|c t] Hn; cbn [String.length] in *;
    try reflexivity; try lia.
  cbn [take_bytes String.length]. rewrite IH; lia.
Qed.

Lemma stable_init cs : forall c, stable (cs ++ [c]) -> stable cs.
Proof.
  induction cs as [|c1 cs IH]; intros c H; [reflexivity|].
  pose proof (stable_tail _ _ H) as Htl. apply IH in Htl.
  unfold stable in *. cbn [app] in H.
  rewrite bytes_of_cons, bytes_of_app in H. rewrite bytes_of_cons.
  rewrite <- append_assoc in H.
  destruct c1 as [r1 b1]. cbn [snd] in *.
  remember (b1 +:+ bytes_of cs) as p eqn:Hp.
  destruct (p +:+ bytes_of [c]) as [|c0 t] eqn:Hs; [discriminate H|].
  rewrite chunks_cons in H.
  pose proof (decode_size c0 t) as Hn.
  remember (utf8.DecodeRuneInString (String c0 t)) as d eqn:Hd.
  destruct d as [r n]. cbn [fst snd] in *.
  injection H as -> Hb1 _.
  assert (Hlen : String.length b1 = n).
  { rewrite <- Hb1. apply take_bytes_length. cbn [String.length]. lia. }
  assert (Hdp : utf8.DecodeRuneInString p = (r1, n)).
  { rewrite Hd, <- Hs. apply decode_prefix. rewrite Hs, <- Hd. cbn [snd].
    rewrite Hp, length_append. lia. }
  destruct p as [|c0' t'].
  { exfalso. destruct b1; [cbn in Hlen; lia | discriminate Hp]. }
  rewrite chunks_cons, Hdp. cbn [fst snd]. rewrite Hp, <- Hlen.
  now rewrite take_bytes_append, drop_bytes_append, Htl.
Qed.

Lemma stable_drop_while sp cs : stable cs -> stable (drop_while sp cs).
Proof.
  induction cs as [|c cs IH]; intros H; [exact H|].
  cbn [drop_while]. destruct (sp c); [|exact H].
  apply IH. eapply stable_tail, H.
Qed.

Lemma stable_drop_while_end sp l :
  stable (rev l) -> stable (rev (drop_while sp l)).
Proof.
  induction l as [|c l IH]; intros H; [exact H|].
  cbn [drop_while]. destruct (sp c); [|exact H].
  apply IH. cbn [rev] in H. eapply stable_init, H.
Qed.

Lemma stable_trim sp cs : stable cs -> stable (trim sp cs).
Proof.
  intros H. unfold trim. apply stable_drop_while_end.
  rewrite rev_involutive. now apply stable_drop_while.
Qed.

(** TrimSpace removes the white space at both ends of the sequence of
    code points, and nothing else. *)
Lemma runes_TrimSpace s :
  runes (strings.TrimSpace s) = trim unicode.IsSpace (runes s).
Proof.
  unfold runes, strings.TrimSpace.
  rewrite (stable_trim strings.space_chunk _ (stable_chunks s)).
  symmetry. apply (trim_map fst unicode.IsSpace).
Qed.

Lemma filter_drop_while {A} (f sp : A -> bool) l :
  (forall x, sp x = true -> f x = false) ->
  List.filter f (drop_while sp l) = List.filter f l.
Proof.
  intros Hsp. induction l as [|x l IH]; [reflexivity|].
  cbn [drop_while List.filter]. destruct (sp x) eqn:Hx; [|reflexivity].
  now rewrite (Hsp x Hx).
Qed.

Lemma filter_rev' {A} (f : A -> bool) l :
  List.filter f (rev l) = rev (List.filter f l).
Proof.
  induction l as [|x l IH]; [reflexivity|].
  cbn [rev List.filter]. rewrite List.filter_app, IH. cbn [List.filter].
  destruct (f x); [reflexivity | now rewrite app_nil_r].
Qed.

Lemma filter_trim {A} (f sp : A -> bool) l :
  (forall x, sp x = true -> f x = false) ->
  List.filter f (trim sp l) = List.filter f l.
Proof.
  intros Hsp. unfold trim.
  rewrite filter_rev', filter_drop_while, filter_rev', rev_involutive
    by assumption.
  now apply filter_drop_while.
Qed.

Lemma filter_filter {A} (f g : A -> bool) l :
  List.filter f (List.filter g l) = List.filter (fun x => g x && f x) l.
Proof.
  induction l as [|x l IH]; [reflexivity|].
  cbn [List.filter]. destruct (g x); cbn [andb List.filter]; [|exact IH].
  destruct (f x); now rewrite IH.
Qed.

Lemma runes_cleanInput s :
  runes (cleanInput s) = clean_runes (trim unicode.IsSpace (runes s)).
Proof.
  rewrite cleanInput_runes, runes_TrimSpace.
  apply runes_encode_all, clean_runes_valid.
  rewrite <- runes_TrimSpace. apply runes_valid.
Qed.

Lemma clean_runes_survivors rs :
  List.filter (fun r => negb (unicode.IsSpace r)) (clean_runes rs)
  = List.filter (fun r => retained r && negb (unicode.IsSpace r)) rs.
Proof.
  unfold clean_runes.
  rewrite filter_join; [|reflexivity | apply clean_runes_words].
  rewrite concat_split_on. cbn [app]. apply filter_filter.
Qed.

Lemma concat_words_nil {A} (sp : A -> bool) ws :
  Forall (word sp) ws -> concat ws = [] -> ws = [].
Proof.
  intros Hws Hc. destruct ws as [|w ws]; [reflexivity|].
  inversion Hws as [|? ? [Hne _] _]; subst.
  cbn [concat] in Hc. apply app_eq_nil in Hc. destruct Hc. contradiction.
Qed.

Lemma filter_no_survivor {A} (g sp : A -> bool) l :
  (forall x, In x l -> g x = true -> sp x = true) ->
  List.filter (fun x => g x && negb (sp x)) l = [].
Proof.
  induction l as [|x l IH]; intros Hall; [reflexivity|].
  cbn [List.filter]. destruct (g x) eqn:Hg; cbn [andb].
  - rewrite (Hall x (or_introl eq_refl) Hg). cbn [negb].
    apply IH. intros y Hy. apply Hall. now right.
  - apply IH. intros y Hy. apply Hall. now right.
Qed.

Lemma retained_iff r :
  retained r = true <-> r = 32 \/ r = 9 \/ 32 <= r <= 126 \/ 127 < r.
Proof. unfold retained. lia. Qed.

(** C4. On the code points of the input cleanInput trims the white space
    at both ends, keeps exactly the characters that are space, tab,
    printable ASCII or above 127, and joins the runs between white space
    with single spaces: the result is made of non-empty words of retained
    characters that are not white space, separated by one space; the
    characters that survive are exactly the retained ones that are not
    white space, in their order; and the result is empty when no retained
    character is other than white space. *)
Theorem C4_cleanInput_sanitizes :
  (forall s,
      runes (cleanInput s) = clean_runes (trim unicode.IsSpace (runes s))
      /\ cleanInput s = encode_all (runes (cleanInput s))
      /\ (exists ws,
             runes (cleanInput s) = join_with 32 ws
             /\ Forall (fun w => w <> []
                                 /\ Forall (fun r => unicode.IsSpace r = false) w
                                 /\ Forall (fun r => retained r = true) w) ws)
      /\ List.filter (fun r => negb (unicode.IsSpace r)) (runes (cleanInput s))
         = List.filter (fun r => retained r && negb (unicode.IsSpace r)) (runes s)
      /\ ((forall r, In r (runes s) -> retained r = true ->
                     unicode.IsSpace r = true) ->
          cleanInput s = ""))
  /\ (forall r, retained r = true
                <-> r = 32 \/ r = 9 \/ 32 <= r <= 126 \/ 127 < r)
  /\ cleanInput "" = ""
  /\ cleanInput "   " = ""
  /\ cleanInput (chr 1 +:+ chr 2) = ""
  /\ cleanInput "  hello   world  " = "hello world".
Proof.
  split; [|split; [exact retained_iff | repeat split; vm_compute; reflexivity]].
  intros s.
  assert (Hsurv :
            List.filter (fun r => negb (unicode.IsSpace r)) (runes (cleanInput s))
            = List.filter (fun r => retained r && negb (unicode.IsSpace r))
                (runes s)).
  { rewrite runes_cleanInput, clean_runes_survivors. apply filter_trim.
    intros x Hx. rewrite Hx. apply andb_false_r. }
  split; [apply runes_cleanInput|]. split; [|split; [|split; [exact Hsurv|]]].
  - rewrite runes_cleanInput, <- runes_TrimSpace. apply cleanInput_runes.
  - rewrite runes_cleanInput. unfold clean_runes.
    set (kept := List.filter retained (trim unicode.IsSpace (runes s))).
    exists (split_on unicode.IsSpace [] kept). split; [reflexivity|].
    pose proof (split_on_words unicode.IsSpace kept [] (List.Forall_nil _)) as Hw.
    pose proof (Forall_split_on unicode.IsSpace (fun r => retained r = true)
                  kept [] (List.Forall_nil _) (Forall_filter_true _ _)) as Hr.
    induction Hw as [|w ws [Hne Hsp] Hws IH]; [constructor|].
    inversion Hr; subst. constructor; [now repeat split | now apply IH].
  - intros Hall.
    assert (Hnil : List.filter (fun r => retained r && negb (unicode.IsSpace r))
                     (runes s) = []).
    { now apply filter_no_survivor. }
    rewrite Hnil in Hsurv. rewrite runes_cleanInput in Hsurv.
    unfold clean_runes in Hsurv.
    rewrite filter_join in Hsurv; [|reflexivity | apply clean_runes_words].
    apply (concat_words_nil unicode.IsSpace) in Hsurv; [|apply clean_runes_words].
    rewrite cleanInput_runes, runes_TrimSpace. unfold clean_runes.
    now rewrite Hsurv.
Qed.

Lemma C4_witness : cleanInput (" " +:+ chr 9 +:+ chr 7 +:+ " ") = "".
Proof.
  apply (proj1 C4_cleanInput_sanitizes (" " +:+ chr 9 +:+ chr 7 +:+ " ")).
  intros r Hin Hret. vm_compute in Hin.
  destruct Hin as [<-|[<-|[<-|[<-|[]]]]]; try reflexivity.
  discriminate Hret.
Defined.

(** ** The transcript of the history command *)

Lemma history_line_assistant i m :
  history_line i (assistant_msg m)
  = Some ("     🤖 AI: " +:+ truncateString m 100 +:+ nl).
Proof. reflexivity. Qed.

Lemma truncateString_bytes s :
  (len s <= 100 -> truncateString s 100 = s)
  /\ (100 < len s ->
      truncateString s 100 = take_bytes 100 s +:+ "..."
      /\ len (take_bytes 100 s) = 100).
Proof.
  unfold truncateString, len. split; intros H.
  - destruct (_ <=? _) eqn:E; [reflexivity | lia].
  - destruct (_ <=? _) eqn:E; [lia|]. split; [reflexivity|].
    change (Z.to_nat 100) with 100%nat. rewrite take_bytes_length; lia.
Qed.

Lemma chunks_ascii c t :
  byte_val c < utf8.RuneSelf ->
  chunks (String c t) = (byte_val c, String c EmptyString) :: chunks t.
Proof.
  intros Hc. rewrite chunks_cons. unfold utf8.DecodeRuneInString.
  apply Z.ltb_lt in Hc. rewrite Hc. reflexivity.
Qed.

Lemma RuneCount_ascii s : strings.isASCII s = true -> RuneCountInString s = len s.
Proof.
  unfold RuneCountInString, runes, len.
  induction s as [|c t IH]; [reflexivity|].
  cbn [strings.isASCII]. intros H. apply andb_true_iff in H. destruct H as [Hc Ht].
  rewrite chunks_ascii by lia. cbn [map length String.length].
  specialize (IH Ht). lia.
Qed.

Lemma isASCII_take n s :
  strings.isASCII s = true -> strings.isASCII (take_bytes n s) = true.
Proof.
  revert s. induction n as [|n IH]; intros [|c t] H; try reflexivity.
  cbn [take_bytes strings.isASCII] in *.
  apply andb_true_iff in H. destruct H as [Hc Ht].
  now rewrite Hc, IH.
Qed.

(** On an ASCII message bytes and characters coincide, and the transcript
    shows what the specification says. *)
Lemma truncateString_ascii s :
  strings.isASCII s = true ->
  (RuneCountInString s <= 100 -> truncateString s 100 = s)
  /\ (100 < RuneCountInString s ->
      truncateString s 100 = take_bytes 100 s +:+ "..."
      /\ RuneCountInString (take_bytes 100 s) = 100).
Proof.
  intros Ha. rewrite (RuneCount_ascii s Ha).
  rewrite (RuneCount_ascii _ (isASCII_take 100 s Ha)).
  apply truncateString_bytes.
Qed.

Lemma truncateString_examples :
  truncateString (repeat_string 150 "a") 100 = repeat_string 100 "a" +:+ "..."
  /\ truncateString (repeat_string 100 "a") 100 = repeat_string 100 "a".
Proof. split; vm_compute; reflexivity. Qed.

(** C8, on the input where the code departs from it: an answer of 34
    Chinese characters takes 102 bytes, so the transcript shows its first
    100 bytes (33 characters and the first byte of the 34th, which decodes
    to the replacement character) followed by the ellipsis, although the
    answer is shorter than 100 characters. *)
Theorem C8_truncation_counts_bytes :
  RuneCountInString answer_34 = 34
  /\ len answer_34 = 102
  /\ truncateString answer_34 100 = take_bytes 100 answer_34 +:+ "..."
  /\ truncateString answer_34 100 <> answer_34
  /\ history_line 1 (assistant_msg answer_34)
     = Some ("     🤖 AI: " +:+ take_bytes 100 answer_34 +:+ "..." +:+ nl)
  /\ runes (take_bytes 100 answer_34) = repeat 20013 33 ++ [utf8.RuneError].
Proof.
  repeat split; try (vm_compute; reflexivity).
  vm_compute. discriminate.
Qed.

(** * Further properties of the code *)

(** ** What send puts on the wire *)

(** X1. A request that send issues carries the whole history with the new
    question last, a model and a token limit that are never the unset
    values (the defaults replace them), the temperature 0.7, the URL made
    of the base URL and /chat/completions, the bearer token of the
    provider, and as body what the JSON encoder made of that payload.  At
    most one request is issued per call. *)
Theorem X1_request_carries_full_history env providerCfg q w :
  let w' := snd (askQuestionWithHistory env providerCfg q w) in
  sent w' = sent w
  \/ exists r req,
      sent w' = sent w ++ [(r, req)]
      /\ req_Messages r = history w ++ [user_msg q]
      /\ req_Model r <> ""
      /\ (Model providerCfg <> "" -> req_Model r = Model providerCfg)
      /\ req_MaxTokens r <> 0
      /\ (MaxTokens providerCfg <> 0 -> req_MaxTokens r = MaxTokens providerCfg)
      /\ req_Temperature r = Qmake 7 10
      /\ json_Marshal env r = inr (Body req)
      /\ Method req = "POST"
      /\ ends_with "/chat/completions" (URL req)
      /\ (BaseURL providerCfg <> "" ->
          URL req = BaseURL providerCfg +:+ "/chat/completions")
      /\ Header_Get "Authorization" req = Some ("Bearer " +:+ APIKey providerCfg)
      /\ Header_Get "Content-Type" req = Some "application/json".
Proof.
  unfold askQuestionWithHistory; cbv zeta.
  set (model := if String.eqb (Model providerCfg) "" then _ else _).
  set (maxTokens := if MaxTokens providerCfg =? 0 then _ else _).
  set (baseURL := if String.eqb (BaseURL providerCfg) "" then _ else _).
  destruct (json_Marshal env _) as [err|data] eqn:Hm; [left; reflexivity|].
  destruct (http_NewRequest env _ _ _); [left; reflexivity|].
  right.
  match type of Hm with json_Marshal env ?r = _ => exists r end.
  eexists. split.
  { destruct (client_Do env _ _) as [|resp]; [reflexivity|].
    destruct (negb _); [reflexivity|].
    destruct (BodyJSON resp) as [|chatResp]; [reflexivity|].
    destruct (Choices chatResp); reflexivity. }
  cbn [req_Messages req_Model req_MaxTokens req_Temperature history fmt_Print
       append_message set_history Method URL Body Header Header_Set].
  subst model maxTokens baseURL.
  repeat split; trivial.
  - destruct (String.eqb (Model providerCfg) "") eqn:E; [discriminate|].
    now apply String.eqb_neq.
  - intros H. apply String.eqb_neq in H. now rewrite H.
  - destruct (MaxTokens providerCfg =? 0) eqn:E; lia.
  - intros H. apply Z.eqb_neq in H. now rewrite H.
  - eexists. reflexivity.
  - intros H. apply String.eqb_neq in H. now rewrite H.
Qed.

Lemma X1_witness :
  let w' := snd (askQuestionWithHistory (mock_env (fun _ => ok_response "hello"))
                   (keyed "key-1") "hi"
                   (set_history (turns [("a", "b")]) empty_world)) in
  exists r req,
    sent w' = [(r, req)]
    /\ req_Messages r = turns [("a", "b")] ++ [user_msg "hi"]
    /\ req_Model r = "gpt-3.5-turbo"
    /\ req_MaxTokens r = 2000
    /\ URL req = "https://api.openai.com/v1/chat/completions"
    /\ Header_Get "Authorization" req = Some "Bearer key-1".
Proof.
  intros w'.
  destruct (X1_request_carries_full_history
              (mock_env (fun _ => ok_response "hello")) (keyed "key-1") "hi"
              (set_history (turns [("a", "b")]) empty_world))
    as [Hnone | (r & req & Hs & Hm & _ & _ & _ & _ & _ & _ & _ & _ & _ & Ha & _)].
  - vm_compute in Hnone. discriminate Hnone.
  - exists r, req. fold w' in Hs. vm_compute in Hs.
    injection Hs as <- <-. repeat split.
Defined.

Lemma turnCount_next (h : list Message) (m1 m2 : Message) :
  turnCount (h ++ [m1; m2]) = turnCount h + 1.
Proof.
  unfold turnCount. rewrite length_app. cbn [length].
  rewrite !Z.quot_div_nonneg by lia.
  replace (Z.of_nat (length h + 2)) with (Z.of_nat (length h) + 1 * 2) by lia.
  apply Z.div_add. discriminate.
Qed.

(** X2. A call of send that fails, for whatever reason, leaves the history
    as the old history followed by the question, and prints nothing after
    the answer label.  When building the request failed nothing was sent;
    otherwise exactly one request was sent, and the error tells what came
    back: the transport error, the status and body of a reply other than
    200, the decoding error of a 200 reply, or a 200 reply without
    choices. *)
Theorem X2_failed_send_keeps_only_the_question env providerCfg q w e w' :
  askQuestionWithHistory env providerCfg q w = (Some e, w') ->
  history w' = history w ++ [user_msg q]
  /\ stdout w' = stdout w ++ ["🤖 AI: "]
  /\ match e with
     | RequestBuildError _ | RequestCreateError _ => sent w' = sent w
     | _ =>
       exists r req,
         sent w' = sent w ++ [(r, req)]
         /\ match e with
            | TransportError cause =>
              client_Do env (length (sent w)) req = inl cause
            | APIError status body =>
              exists resp,
                client_Do env (length (sent w)) req = inr resp
                /\ StatusCode resp = status /\ status <> 200
                /\ BodyText resp = body
            | DecodeError cause =>
              exists resp,
                client_Do env (length (sent w)) req = inr resp
                /\ StatusCode resp = 200 /\ BodyJSON resp = inl cause
            | _ =>
              exists resp chatResp,
                client_Do env (length (sent w)) req = inr resp
                /\ StatusCode resp = 200 /\ BodyJSON resp = inr chatResp
                /\ Choices chatResp = []
            end
     end.
Proof.
  unfold askQuestionWithHistory; cbv zeta.
  set (model := if String.eqb (Model providerCfg) "" then _ else _).
  set (maxTokens := if MaxTokens providerCfg =? 0 then _ else _).
  set (baseURL := if String.eqb (BaseURL providerCfg) "" then _ else _).
  destruct (json_Marshal env _) as [err|data].
  { intros [= <- <-]. repeat split. }
  destruct (http_NewRequest env _ _ _).
  { intros [= <- <-]. repeat split. }
  cbn [sent append_message set_history fmt_Print].
  destruct (client_Do env _ _) as [cause|resp] eqn:Hdo.
  { intros [= <- <-]. repeat split. eexists. eexists. split; [reflexivity|].
    exact Hdo. }
  destruct (StatusCode resp =? 200) eqn:Hst; cbn [negb].
  2:{ intros [= <- <-]. repeat split. eexists. eexists. split; [reflexivity|].
      exists resp. repeat split; trivial. now apply Z.eqb_neq. }
  apply Z.eqb_eq in Hst.
  destruct (BodyJSON resp) as [cause|chatResp] eqn:Hjs.
  { intros [= <- <-]. repeat split. eexists. eexists. split; [reflexivity|].
    exists resp. repeat split; trivial. }
  destruct (Choices chatResp) as [|c cs] eqn:Hch; [|discriminate].
  intros [= <- <-]. repeat split. eexists. eexists. split; [reflexivity|].
  exists resp, chatResp. repeat split; trivial.
Qed.

Lemma X2_witness :
  let run := askQuestionWithHistory mock_env_rev demo_provider "hi"
               (set_history (turns [("a", "b")]) empty_world) in
  history (snd run) = turns [("a", "b")] ++ [user_msg "hi"]
  /\ stdout (snd run) = [] ++ ["🤖 AI: "]
  /\ exists r req,
      sent (snd run) = [] ++ [(r, req)]
      /\ client_Do mock_env_rev 0 req = inl "connection refused".
Proof.
  intros run.
  apply (X2_failed_send_keeps_only_the_question mock_env_rev demo_provider "hi"
           (set_history (turns [("a", "b")]) empty_world)
           (TransportError "connection refused") (snd run)).
  vm_compute. reflexivity.
Defined.

(** X3. send returns no error only when the one request it sent was
    answered with status 200 and a decodable body with at least one
    choice.  It then appends the question and the content of the first
    choice, and prints the answer and the usage line with the token counts
    of the reply and a turn count one higher than before. *)
Theorem X3_send_succeeds_only_on_200_with_choice env providerCfg q w w' :
  askQuestionWithHistory env providerCfg q w = (None, w') ->
  exists r req resp chatResp c cs,
    sent w' = sent w ++ [(r, req)]
    /\ client_Do env (length (sent w)) req = inr resp
    /\ StatusCode resp = 200
    /\ BodyJSON resp = inr chatResp
    /\ Choices chatResp = c :: cs
    /\ history w'
       = history w ++ [user_msg q; assistant_msg (Content (choice_Message c))]
    /\ stdout w'
       = stdout w
         ++ ["🤖 AI: "; Content (choice_Message c) +:+ nl;
             nl +:+ "📊 Token使用: " +:+ fmt_d (TotalTokens (resp_Usage chatResp))
             +:+ " (输入: " +:+ fmt_d (PromptTokens (resp_Usage chatResp))
             +:+ ", 输出: " +:+ fmt_d (CompletionTokens (resp_Usage chatResp))
             +:+ ") | 对话轮次: " +:+ fmt_d (turnCount (history w) + 1) +:+ nl].
Proof.
  unfold askQuestionWithHistory; cbv zeta.
  set (model := if String.eqb (Model providerCfg) "" then _ else _).
  set (maxTokens := if MaxTokens providerCfg =? 0 then _ else _).
  set (baseURL := if String.eqb (BaseURL providerCfg) "" then _ else _).
  destruct (json_Marshal env _) as [err|data]; [discriminate|].
  destruct (http_NewRequest env _ _ _); [discriminate|].
  cbn [sent append_message set_history fmt_Print].
  destruct (client_Do env _ _) as [cause|resp] eqn:Hdo; [discriminate|].
  destruct (StatusCode resp =? 200) eqn:Hst; cbn [negb]; [|discriminate].
  apply Z.eqb_eq in Hst.
  destruct (BodyJSON resp) as [cause|chatResp] eqn:Hjs; [discriminate|].
  destruct (Choices chatResp) as [|c cs] eqn:Hch; [discriminate|].
  intros [= <-].
  eexists. eexists. exists resp, chatResp, c, cs.
  split; [reflexivity|]. repeat split; trivial.
  - cbn [history fmt_Print fmt_Println append_message set_history log_request].
    now rewrite <- app_assoc.
  - unfold fmt_Println.
    cbn [stdout history fmt_Print append_message set_history log_request].
    rewrite <- (turnCount_next (history w) (user_msg q)
                  (assistant_msg (Content (choice_Message c)))).
    rewrite <- !app_assoc. reflexivity.
Qed.

Lemma X3_witness :
  let run := askQuestionWithHistory (mock_env (fun _ => ok_response "hello"))
               demo_provider "hi" empty_world in
  exists r req resp chatResp c cs,
    sent (snd run) = [] ++ [(r, req)]
    /\ client_Do (mock_env (fun _ => ok_response "hello")) 0 req = inr resp
    /\ StatusCode resp = 200
    /\ BodyJSON resp = inr chatResp
    /\ Choices chatResp = c :: cs
    /\ history (snd run)
       = [] ++ [user_msg "hi"; assistant_msg (Content (choice_Message c))]
    /\ stdout (snd run)
       = [] ++ ["🤖 AI: "; Content (choice_Message c) +:+ nl;
                nl +:+ "📊 Token使用: " +:+ fmt_d (TotalTokens (resp_Usage chatResp))
                +:+ " (输入: " +:+ fmt_d (PromptTokens (resp_Usage chatResp))
                +:+ ", 输出: " +:+ fmt_d (CompletionTokens (resp_Usage chatResp))
                +:+ ") | 对话轮次: " +:+ fmt_d (0 + 1) +:+ nl].
Proof.
  intros run.
  apply (X3_send_succeeds_only_on_200_with_choice
           (mock_env (fun _ => ok_response "hello")) demo_provider "hi"
           empty_world (snd run)).
  vm_compute. reflexivity.
Defined.

(** ** Session commands and the network *)

Lemma showHistory_loop_frame msgs :
  forall i w,
    history (showHistory_loop i msgs w) = history w
    /\ sent (showHistory_loop i msgs w) = sent w.
Proof.
  induction msgs as [|m msgs IH]; intros i w; cbn [showHistory_loop];
    [split; reflexivity|].
  destruct (IH (i + 1)
              match history_line i m with
              | Some line => fmt_Print line w
              | None => w
              end) as [-> ->].
  destruct (history_line i m); split; reflexivity.
Qed.

Lemma showHistory_frame h w :
  history (showHistory h w) = history w /\ sent (showHistory h w) = sent w.
Proof.
  destruct h as [|m h]; [split; reflexivity|].
  unfold showHistory. cbn [fmt_Print history sent].
  destruct (showHistory_loop_frame (m :: h) 0 (fmt_Println "📝 对话历史:" w))
    as [-> ->].
  split; reflexivity.
Qed.

Lemma command_line_effect env providerCfg text w :
  question_of env text = None ->
  sent (flow_world (loop_body env providerCfg text w)) = sent w
  /\ history (flow_world (loop_body env providerCfg text w))
     = if resets env text then [] else history w.
Proof.
  unfold question_of, loop_body, resets; cbv zeta. cbn [existsb].
  destruct (String.eqb (strings.TrimSpace text) ""); [split; reflexivity|].
  destruct (String.eqb (cleanInput _) ""); [split; reflexivity|].
  destruct (String.eqb _ "quit"); [split; reflexivity|].
  destruct (String.eqb _ "exit"); [split; reflexivity|].
  destruct (String.eqb _ "clear"); [split; reflexivity|].
  destruct (String.eqb _ "reset"); [split; reflexivity|].
  destruct (String.eqb _ "history").
  { intros _. cbn [flow_world negb andb orb].
    destruct (showHistory_frame (history w) w) as [-> ->]. split; reflexivity. }
  destruct (String.eqb _ "help"); [split; reflexivity|].
  discriminate.
Qed.

(** X4. A line that is not sent as a question (a blank line, a line the
    sanitizer rejects, or one of the commands quit, exit, clear, reset,
    history, help) never reaches the network, and leaves the history as it
    is unless it is reset, which empties it. *)
Theorem X4_commands_send_nothing env providerCfg text w :
  question_of env text = None ->
  sent (flow_world (loop_body env providerCfg text w)) = sent w
  /\ history (flow_world (loop_body env providerCfg text w))
     = if resets env text then [] else history w.
Proof. apply command_line_effect. Qed.

Lemma X4_witness :
  let env := mock_env (fun _ => ok_response "hello") in
  let w := set_history (turns [("a", "b")]) empty_world in
  (sent (flow_world (loop_body env demo_provider "  HISTORY " w)) = []
   /\ history (flow_world (loop_body env demo_provider "  HISTORY " w))
      = turns [("a", "b")])
  /\ (sent (flow_world (loop_body env demo_provider "Reset" w)) = []
      /\ history (flow_world (loop_body env demo_provider "Reset" w)) = []).
Proof.
  intros env w. split.
  - apply (X4_commands_send_nothing env demo_provider "  HISTORY " w).
    vm_compute. reflexivity.
  - apply (X4_commands_send_nothing env demo_provider "Reset" w).
    vm_compute. reflexivity.
Defined.

Lemma ask_sent_built env providerCfg q w :
  builds_requests env ->
  exists r req,
    sent (snd (askQuestionWithHistory env providerCfg q w)) = sent w ++ [(r, req)].
Proof.
  intros [Hm Hn]. unfold askQuestionWithHistory; cbv zeta.
  match goal with
  | |- context [json_Marshal env ?r] => destruct (Hm r) as [data ->]
  end.
  rewrite Hn. eexists. eexists.
  destruct (client_Do env _ _) as [|resp]; [reflexivity|].
  destruct (negb _); [reflexivity|].
  destruct (BodyJSON resp) as [|chatResp]; [reflexivity|].
  destruct (Choices chatResp); reflexivity.
Qed.

Lemma echo_cleaned_sent cleaned input w :
  sent (echo_cleaned cleaned input w) = sent w.
Proof. unfold echo_cleaned. destruct (negb _); reflexivity. Qed.

Lemma question_line_sent env providerCfg text w q :
  question_of env text = Some q ->
  exists extra,
    sent (flow_world (loop_body env providerCfg text w)) = sent w ++ extra
    /\ (length extra <= 1)%nat
    /\ (builds_requests env -> length extra = 1%nat).
Proof.
  intros Hq. destruct (loop_body_question env providerCfg text w q Hq) as [_ ->].
  pose proof (ask_sent env providerCfg q
                (echo_cleaned q (strings.TrimSpace text) w)) as Hs.
  pose proof (ask_sent_built env providerCfg q
                (echo_cleaned q (strings.TrimSpace text) w)) as Hb.
  destruct (askQuestionWithHistory _ _ _ _) as [err w1]. cbn [snd] in Hs, Hb.
  rewrite echo_cleaned_sent in Hs, Hb.
  assert (Hw : forall w2, sent w2 = sent w1 ->
                 exists extra, sent w2 = sent w ++ extra
                               /\ (length extra <= 1)%nat
                               /\ (builds_requests env -> length extra = 1%nat)).
  { intros w2 ->. destruct Hs as [Hs | (r & req & Hs & _)].
    - exists []. rewrite app_nil_r. repeat split; [assumption | cbn; lia|].
      intros Hbuild. destruct (Hb Hbuild) as (r & req & Hb').
      rewrite Hs in Hb'. apply (f_equal (@length _)) in Hb'.
      rewrite length_app in Hb'. cbn in Hb'. lia.
    - exists [(r, req)]. repeat split; [assumption | cbn; lia]. }
  destruct err; apply Hw; reflexivity.
Qed.

Lemma quits_not_question env text : quits env text = true -> question_of env text = None.
Proof.
  unfold quits, question_of; cbv zeta. cbn [existsb].
  destruct (String.eqb (strings.TrimSpace text) ""); [reflexivity|].
  destruct (String.eqb (cleanInput _) ""); [reflexivity|].
  destruct (String.eqb _ "quit"); [reflexivity|].
  destruct (String.eqb _ "exit"); [reflexivity|].
  discriminate.
Qed.

Lemma asked_le_read env lines : (asked env lines <= lines_read env lines)%nat.
Proof.
  induction lines as [|text rest IH]; cbn [asked lines_read]; [lia|].
  destruct (quits env text); [lia|]. destruct (question_of env text); lia.
Qed.

Lemma interactive_loop_sent env providerCfg scanErr lines :
  forall w,
    exists extra,
      sent (interactive_loop env providerCfg lines scanErr w) = sent w ++ extra
      /\ (length extra <= asked env lines)%nat
      /\ (builds_requests env -> length extra = asked env lines).
Proof.
  induction lines as [|text rest IH]; intros w; cbn [interactive_loop asked].
  - exists []. rewrite app_nil_r. repeat split; [destruct scanErr|]; reflexivity.
  - set (w0 := scan_one (fmt_Print "👤 你: " w)).
    assert (Hw0 : sent w0 = sent w) by reflexivity.
    pose proof (loop_body_return_iff env providerCfg text w0) as Hret.
    destruct (quits env text) eqn:Hquit.
    + pose proof (command_line_effect env providerCfg text w0
                    (quits_not_question env text Hquit)) as [Hs _].
      destruct (loop_body env providerCfg text w0) as [w'|w'].
      * destruct Hret as [_ Hret]. destruct (Hret eq_refl) as [? [=]].
      * cbn [flow_world] in Hs. exists []. rewrite app_nil_r, Hs, Hw0.
        split; [reflexivity|]. split; [cbn; lia | reflexivity].
    + destruct (loop_body env providerCfg text w0) as [w'|w'] eqn:Hbody.
      2:{ destruct Hret as [Hret _]. discriminate Hret. eauto. }
      destruct (IH w') as (extra & He & Hle & Heq).
      destruct (question_of env text) as [q|] eqn:Hq.
      * destruct (question_line_sent env providerCfg text w0 q Hq)
          as (one & H1 & Hle1 & Heq1).
        rewrite Hbody in H1. cbn [flow_world] in H1.
        exists (one ++ extra). rewrite He, H1, Hw0, app_assoc, length_app.
        repeat split; [lia|]. intros Hb. rewrite Heq, Heq1 by assumption.
        reflexivity.
      * pose proof (command_line_effect env providerCfg text w0 Hq) as [Hs _].
        rewrite Hbody in Hs. cbn [flow_world] in Hs.
        exists extra. rewrite He, Hs, Hw0. repeat split; assumption.
Qed.

(** X5. A run of the interactive loop only adds to the requests sent, and
    sends at most one request for each line it reads as a question (never
    more than the lines it reads); exactly one for each when the request
    can be built, whatever the API answers. *)
Theorem X5_one_request_per_question env providerCfg lines scanErr w :
  exists extra,
    sent (runInteractiveChatWithHistory env providerCfg lines scanErr w)
    = sent w ++ extra
    /\ (length extra <= asked env lines <= lines_read env lines)%nat
    /\ (builds_requests env -> length extra = asked env lines).
Proof.
  unfold runInteractiveChatWithHistory.
  destruct (interactive_loop_sent env providerCfg scanErr lines (print_banner w))
    as (extra & He & Hle & Heq).
  exists extra. rewrite He. repeat split; trivial.
  apply asked_le_read.
Qed.

Lemma X5_witness :
  let env := mock_env (fun _ => error_response 500 "overloaded") in
  exists extra,
    sent (runInteractiveChatWithHistory env demo_provider
            ["hello"; ""; "help"; "again"; "quit"; "more"] None empty_world)
    = [] ++ extra
    /\ length extra = 2%nat.
Proof.
  intros env.
  destruct (X5_one_request_per_question env demo_provider
              ["hello"; ""; "help"; "again"; "quit"; "more"] None empty_world)
    as (extra & He & _ & Heq).
  exists extra. split; [exact He|].
  rewrite Heq; [vm_compute; reflexivity|].
  split; intros; cbn; eauto.
Defined.

(** ** The shape of the history *)

Lemma afq_app_user h q :
  forall b, answers_follow_questions b h = true ->
            answers_follow_questions b (h ++ [user_msg q]) = true.
Proof.
  induction h as [|m h IH]; intros b H; [reflexivity|].
  cbn [app answers_follow_questions] in *.
  destruct (String.eqb (Role m) "user"); [now apply IH|].
  destruct (String.eqb (Role m) "assistant"); [|discriminate].
  apply andb_true_iff in H. destruct H as [-> H]. now apply IH.
Qed.

Lemma afq_app_turn h q a :
  forall b, answers_follow_questions b h = true ->
            answers_follow_questions b (h ++ [user_msg q; assistant_msg a]) = true.
Proof.
  induction h as [|m h IH]; intros b H; [reflexivity|].
  cbn [app answers_follow_questions] in *.
  destruct (String.eqb (Role m) "user"); [now apply IH|].
  destruct (String.eqb (Role m) "assistant"); [|discriminate].
  apply andb_true_iff in H. destruct H as [-> H]. now apply IH.
Qed.

Lemma ask_history_cases env providerCfg q w :
  history (snd (askQuestionWithHistory env providerCfg q w))
  = history w ++ [user_msg q]
  \/ exists a,
      history (snd (askQuestionWithHistory env providerCfg q w))
      = history w ++ [user_msg q; assistant_msg a].
Proof.
  unfold askQuestionWithHistory; cbv zeta.
  destruct (json_Marshal env _); [left; reflexivity|].
  destruct (http_NewRequest env _ _ _); [left; reflexivity|].
  destruct (client_Do env _ _) as [|resp]; [left; reflexivity|].
  destruct (negb _); [left; reflexivity|].
  destruct (BodyJSON resp) as [|chatResp]; [left; reflexivity|].
  destruct (Choices chatResp) as [|c cs]; [left; reflexivity|].
  right. exists (Content (choice_Message c)).
  cbn [snd history fmt_Print fmt_Println append_message set_history log_request].
  now rewrite <- app_assoc.
Qed.

Lemma ask_keeps_shape env providerCfg q w :
  answers_follow_questions false (history w) = true ->
  answers_follow_questions false
    (history (snd (askQuestionWithHistory env providerCfg q w))) = true.
Proof.
  intros H. destruct (ask_history_cases env providerCfg q w) as [-> | [a ->]];
    [now apply afq_app_user | now apply afq_app_turn].
Qed.

Lemma loop_body_keeps_shape env providerCfg text w :
  answers_follow_questions false (history w) = true ->
  answers_follow_questions false
    (history (flow_world (loop_body env providerCfg text w))) = true.
Proof.
  intros H. destruct (question_of env text) as [q|] eqn:Hq.
  - destruct (loop_body_question env providerCfg text w q Hq) as [_ ->].
    pose proof (ask_keeps_shape env providerCfg q
                  (echo_cleaned q (strings.TrimSpace text) w)) as Hk.
    rewrite echo_cleaned_history in Hk. specialize (Hk H).
    destruct (askQuestionWithHistory _ _ _ _) as [err w1]. cbn [snd] in Hk.
    destruct err; exact Hk.
  - destruct (command_line_effect env providerCfg text w Hq) as [_ ->].
    destruct (resets env text); [reflexivity | exact H].
Qed.

Lemma interactive_loop_keeps_shape env providerCfg scanErr lines :
  forall w,
    answers_follow_questions false (history w) = true ->
    answers_follow_questions false
      (history (interactive_loop env providerCfg lines scanErr w)) = true.
Proof.
  induction lines as [|text rest IH]; intros w H; cbn [interactive_loop].
  - destruct scanErr; exact H.
  - pose proof (loop_body_keeps_shape env providerCfg text
                  (scan_one (fmt_Print "👤 你: " w)) H) as Hk.
    destruct (loop_body env providerCfg text _) as [w'|w']; cbn [flow_world] in Hk;
      [now apply IH | exact Hk].
Qed.

Lemma afq_counts h :
  forall b,
    answers_follow_questions b h = true ->
    (count_role "assistant" h
     <= count_role "user" h + (if b then 1 else 0))%nat
    /\ length h = (count_role "user" h + count_role "assistant" h)%nat.
Proof.
  unfold count_role.
  induction h as [|m h IH]; intros b H; [cbn; lia|].
  cbn [answers_follow_questions List.filter length] in *.
  destruct (String.eqb (Role m) "user") eqn:Hu.
  - apply String.eqb_eq in Hu. rewrite Hu.
    cbn [String.eqb Ascii.eqb Bool.eqb length].
    destruct (IH true H). destruct b; cbn [length]; lia.
  - destruct (String.eqb (Role m) "assistant") eqn:Ha; [|discriminate].
    apply andb_true_iff in H. destruct H as [-> H].
    destruct (IH false H). cbn [length]. lia.
Qed.

Lemma afq_turnCount h :
  answers_follow_questions false h = true ->
  Z.of_nat (count_role "assistant" h) <= turnCount h.
Proof.
  intros H. destruct (afq_counts h false H) as [Hle Hlen].
  unfold turnCount. rewrite Z.quot_div_nonneg by lia.
  apply Z.div_le_lower_bound; lia.
Qed.

(** X6. The session keeps the history in shape: it only ever holds user and
    assistant messages, and every assistant message comes directly after
    the user message it answers.  So there are never more answers than
    questions, and the turn count shown (half the length) is never below
    the number of answers: it counts unanswered questions too.  This holds
    for the interactive loop on any history in that shape, and for a whole
    run of the chat command. *)
Theorem X6_history_keeps_its_shape :
  (forall env providerCfg lines scanErr w,
      answers_follow_questions false (history w) = true ->
      let h := history (runInteractiveChatWithHistory env providerCfg lines
                          scanErr w) in
      answers_follow_questions false h = true
      /\ (count_role "assistant" h <= count_role "user" h)%nat
      /\ Z.of_nat (count_role "assistant" h) <= turnCount h)
  /\ (forall env loaded args lines scanErr w,
         answers_follow_questions false (history w) = true ->
         let h := history (runSimpleChat env loaded args lines scanErr w) in
         answers_follow_questions false h = true
         /\ (count_role "assistant" h <= count_role "user" h)%nat
         /\ Z.of_nat (count_role "assistant" h) <= turnCount h).
Proof.
  assert (Hall : forall h, answers_follow_questions false h = true ->
                           answers_follow_questions false h = true
                           /\ (count_role "assistant" h <= count_role "user" h)%nat
                           /\ Z.of_nat (count_role "assistant" h) <= turnCount h).
  { intros h H. split; [exact H|]. split; [|now apply afq_turnCount].
    destruct (afq_counts h false H). lia. }
  split.
  - intros env providerCfg lines scanErr w H h. apply Hall. subst h.
    unfold runInteractiveChatWithHistory.
    now apply interactive_loop_keeps_shape.
  - intros env loaded args lines scanErr w H h. apply Hall. subst h.
    unfold runSimpleChat.
    pose proof (resolve_provider_frame env loaded w) as Hfr.
    destruct (resolve_provider env loaded w) as [[p|] w0]; cbn [snd] in Hfr.
    2:{ destruct Hfr as (-> & _). exact H. }
    cbv zeta.
    match goal with
    | |- context [set_history [] ?x] => set (wq := set_history [] x)
    end.
    assert (Hq : answers_follow_questions false (history wq) = true)
      by reflexivity.
    destruct args as [|question rest].
    + unfold runInteractiveChatWithHistory.
      now apply interactive_loop_keeps_shape.
    + pose proof (ask_keeps_shape env p question wq Hq) as Hk.
      destruct (askQuestionWithHistory env p question wq) as [err w1].
      cbn [snd] in Hk. destruct err; exact Hk.
Qed.

Lemma X6_witness :
  let env := mock_env (fun n => if Nat.even n then error_response 500 "busy"
                                else ok_response "hello") in
  (let h := history (runInteractiveChatWithHistory env demo_provider
                       ["one"; "two"; "three"] None empty_world) in
   answers_follow_questions false h = true
   /\ (count_role "assistant" h <= count_role "user" h)%nat
   /\ Z.of_nat (count_role "assistant" h) <= turnCount h)
  /\ (let h := history (runSimpleChat env
                          (inr {| Providers := {[ "demo" := demo_provider ]} |})
                          [] ["one"; "two"; "three"] None empty_world) in
      answers_follow_questions false h = true
      /\ (count_role "assistant" h <= count_role "user" h)%nat
      /\ Z.of_nat (count_role "assistant" h) <= turnCount h).
Proof.
  intros env. split.
  - apply (proj1 X6_history_keeps_its_shape env demo_provider
             ["one"; "two"; "three"] None empty_world).
    reflexivity.
  - apply (proj2 X6_history_keeps_its_shape env
             (inr {| Providers := {[ "demo" := demo_provider ]} |})
             [] ["one"; "two"; "three"] None empty_world).
    reflexivity.
Defined.

(** ** The transcript, line by line *)

Lemma showHistory_loop_turns qa :
  forall k w,
    0 <= k ->
    stdout (showHistory_loop (2 * k) (turns qa) w)
    = stdout w ++ transcript (k + 1) qa.
Proof.
  induction qa as [|[q a] qa IH]; intros k w Hk.
  - cbn. now rewrite app_nil_r.
  - change (turns ((q, a) :: qa))
      with (user_msg q :: assistant_msg a :: turns qa).
    cbn [showHistory_loop transcript fst snd].
    change (history_line (2 * k) (user_msg q))
      with (Some ("  " +:+ fmt_d (Z.quot (2 * k) 2 + 1) +:+ ". 👤 你: "
                  +:+ q +:+ nl)).
    rewrite history_line_assistant.
    replace (2 * k + 1 + 1) with (2 * (k + 1)) by lia.
    rewrite IH by lia. cbn [stdout fmt_Print].
    replace (Z.quot (2 * k) 2) with k
      by (rewrite Z.mul_comm, Z.quot_mul; [reflexivity | discriminate]).
    rewrite <- !app_assoc. reflexivity.
Qed.

Lemma length_turns qa : length (turns qa) = (2 * length qa)%nat.
Proof.
  induction qa as [|p qa IH]; [reflexivity|].
  cbn [turns flat_map app length] in *. unfold turns in IH. lia.
Qed.

(** X7. On a history of completed turns the history command prints, after
    the heading, the k-th question under the number k and the k-th answer
    cut by truncateString, then the number of turns; on an empty history it
    prints the notice that there is none.  It changes neither the history
    nor the requests sent.  The number is taken from the position, not from
    the count of questions: two user messages at positions 2j and 2j+1 (the
    second left by a failed exchange) both get the number j+1. *)
Theorem X7_history_command_transcript :
  (forall qa w,
      stdout (showHistory (turns qa) w)
      = stdout w
        ++ match qa with
           | [] => ["📝 暂无对话历史" +:+ nl]
           | _ => ["📝 对话历史:" +:+ nl] ++ transcript 1 qa
                  ++ ["📊 总计 " +:+ fmt_d (Z.of_nat (length qa)) +:+ " 轮对话" +:+ nl]
           end
      /\ history (showHistory (turns qa) w) = history w
      /\ sent (showHistory (turns qa) w) = sent w)
  /\ (forall j a b,
         0 <= j ->
         history_line (2 * j) (user_msg a)
         = Some ("  " +:+ fmt_d (j + 1) +:+ ". 👤 你: " +:+ a +:+ nl)
         /\ history_line (2 * j + 1) (user_msg b)
            = Some ("  " +:+ fmt_d (j + 1) +:+ ". 👤 你: " +:+ b +:+ nl)).
Proof.
  split.
  - intros qa w. destruct (showHistory_frame (turns qa) w) as [Hh Hs].
    split; [|split; assumption].
    destruct qa as [|[q a] qa]; [reflexivity|].
    change (turns ((q, a) :: qa))
      with (user_msg q :: assistant_msg a :: turns qa).
    unfold showHistory. cbn [stdout fmt_Print].
    change (user_msg q :: assistant_msg a :: turns qa)
      with (turns ((q, a) :: qa)).
    rewrite (showHistory_loop_turns ((q, a) :: qa) 0) by lia.
    rewrite (turnCount_even (turns ((q, a) :: qa)) (length ((q, a) :: qa)))
      by apply length_turns.
    unfold fmt_Println. cbn [stdout fmt_Print].
    rewrite <- !app_assoc. reflexivity.
  - intros j a b Hj.
    assert (H0 : Z.quot (2 * j) 2 = j)
      by (rewrite Z.mul_comm, Z.quot_mul; [reflexivity | discriminate]).
    assert (H1 : Z.quot (2 * j + 1) 2 = j).
    { rewrite Z.quot_div_nonneg by lia.
      rewrite Z.mul_comm, Z.div_add_l by discriminate.
      change (1 / 2) with 0. lia. }
    unfold history_line. cbn [Role user_msg String.eqb Ascii.eqb Bool.eqb Content].
    now rewrite H0, H1.
Qed.

Lemma X7_witness :
  history_line (2 * 0) (user_msg "first")
  = Some ("  " +:+ fmt_d (0 + 1) +:+ ". 👤 你: " +:+ "first" +:+ nl)
  /\ history_line (2 * 0 + 1) (user_msg "second")
     = Some ("  " +:+ fmt_d (0 + 1) +:+ ". 👤 你: " +:+ "second" +:+ nl).
Proof.
  apply (proj2 X7_history_command_transcript 0 "first" "second"). lia.
Defined.

(** ** truncateString *)

(** X8. For a limit that is not negative, truncateString returns at most
    the limit plus three bytes, returns its argument when it fits, agrees
    with its argument on the bytes within the limit, and applied again to
    its own result changes nothing. *)
Theorem X8_truncateString_bounded_idempotent s maxLen :
  0 <= maxLen ->
  len (truncateString s maxLen) <= maxLen + 3
  /\ (len s <= maxLen -> truncateString s maxLen = s)
  /\ take_bytes (Z.to_nat maxLen) (truncateString s maxLen)
     = take_bytes (Z.to_nat maxLen) s
  /\ truncateString (truncateString s maxLen) maxLen = truncateString s maxLen.
Proof.
  intros Hmax.
  destruct (len s <=? maxLen) eqn:Hfit.
  - assert (Hs : truncateString s maxLen = s)
      by (unfold truncateString; now rewrite Hfit).
    rewrite !Hs. repeat split; trivial. lia.
  - assert (Hs : truncateString s maxLen
                 = take_bytes (Z.to_nat maxLen) s +:+ "...")
      by (unfold truncateString; now rewrite Hfit).
    assert (Hn : String.length (take_bytes (Z.to_nat maxLen) s) = Z.to_nat maxLen).
    { apply take_bytes_length. unfold len in Hfit. lia. }
    assert (Hlen : len (take_bytes (Z.to_nat maxLen) s +:+ "...") = maxLen + 3).
    { unfold len. rewrite length_append, Hn. cbn [String.length]. lia. }
    rewrite !Hs. split; [lia|]. split; [lia|]. split.
    + rewrite <- Hn at 1. apply take_bytes_append.
    + unfold truncateString. rewrite Hlen.
      destruct (maxLen + 3 <=? maxLen) eqn:E; [lia|].
      rewrite <- Hn at 1. now rewrite take_bytes_append.
Qed.

Lemma X8_witness :
  len (truncateString answer_34 100) <= 100 + 3
  /\ (len answer_34 <= 100 -> truncateString answer_34 100 = answer_34)
  /\ take_bytes (Z.to_nat 100) (truncateString answer_34 100)
     = take_bytes (Z.to_nat 100) answer_34
  /\ truncateString (truncateString answer_34 100) 100
     = truncateString answer_34 100.
Proof.
  apply (X8_truncateString_bounded_idempotent answer_34 100). lia.
Defined.

(** ** More on the sanitizer *)

Lemma drop_while_spec {A} (sp : A -> bool) l :
  exists pre, l = pre ++ drop_while sp l /\ Forall (fun x => sp x = true) pre.
Proof.
  induction l as [|x l (pre & Hl & Hpre)]; [exists []; split; [reflexivity|constructor]|].
  cbn [drop_while]. destruct (sp x) eqn:Hx.
  - exists (x :: pre). split; [cbn [app]; now rewrite <- Hl | now constructor].
  - exists []. split; [reflexivity | constructor].
Qed.

Lemma split_on_trailing {A} (sp : A -> bool) l spaces :
  Forall (fun x => sp x = true) spaces ->
  forall cur, split_on sp cur (l ++ spaces) = split_on sp cur l.
Proof.
  intros Hsp. induction l as [|x l IH]; intros cur; cbn [app split_on].
  - induction Hsp as [|y spaces Hy _ IHs] in cur |- *; [reflexivity|].
    cbn [split_on]. rewrite Hy. destruct cur; [apply IHs|].
    now rewrite (IHs []).
  - destruct (sp x); [|apply IH]. destruct cur; now rewrite IH.
Qed.

Lemma split_on_leading {A} (sp : A -> bool) spaces l :
  Forall (fun x => sp x = true) spaces ->
  split_on sp [] (spaces ++ l) = split_on sp [] l.
Proof.
  induction 1 as [|y spaces Hy _ IH]; [reflexivity|].
  cbn [app split_on]. now rewrite Hy.
Qed.

Lemma clean_runes_trim rs : clean_runes (trim unicode.IsSpace rs) = clean_runes rs.
Proof.
  unfold clean_runes, trim. f_equal.
  destruct (drop_while_spec unicode.IsSpace rs) as (pre & Hrs & Hpre).
  remember (drop_while unicode.IsSpace rs) as l1 eqn:E1. clear E1.
  destruct (drop_while_spec unicode.IsSpace (rev l1)) as (post & Hl1 & Hpost).
  remember (drop_while unicode.IsSpace (rev l1)) as l2 eqn:E2. clear E2.
  assert (Hl1' : l1 = rev l2 ++ rev post).
  { rewrite <- rev_app_distr, <- Hl1. symmetry. apply rev_involutive. }
  subst rs. subst l1. rewrite !List.filter_app.
  rewrite split_on_leading by now apply Forall_filter_keeps.
  rewrite split_on_trailing; [reflexivity|].
  apply Forall_filter_keeps. apply Forall_rev. exact Hpost.
Qed.

Lemma length_drop_while {A} (sp : A -> bool) l :
  (length (drop_while sp l) <= length l)%nat.
Proof.
  induction l as [|x l IH]; cbn [drop_while length]; [lia|].
  destruct (sp x); cbn [length]; lia.
Qed.

Lemma length_trim {A} (sp : A -> bool) l : (length (trim sp l) <= length l)%nat.
Proof.
  unfold trim. rewrite length_rev.
  etransitivity; [apply length_drop_while|]. rewrite length_rev.
  apply length_drop_while.
Qed.

Lemma length_join_split {A} (sp : A -> bool) (sep : A) l :
  forall cur,
    (length (join_with sep (split_on sp cur l)) <= length cur + length l)%nat.
Proof.
  induction l as [|x l IH]; intros cur; cbn [split_on length].
  - destruct cur; cbn [join_with length]; lia.
  - destruct (sp x).
    + destruct cur as [|y cur]; [specialize (IH []); cbn [length] in IH; lia|].
      specialize (IH []). cbn [join_with].
      destruct (split_on sp [] l); [cbn [length]; lia|].
      rewrite length_app. cbn [length] in *. lia.
    + specialize (IH (cur ++ [x])). rewrite length_app in IH. cbn [length] in IH.
      lia.
Qed.

(** X9. The result of cleanInput has no white space left to trim, and is
    the same whether or not the input was trimmed before, as the loop does:
    the question a line leads to is cleanInput of the line.  The result
    never has more characters than the input. *)
Theorem X9_cleanInput_trimming_and_size (s : string) :
  cleanInput (strings.TrimSpace s) = cleanInput s
  /\ strings.TrimSpace (cleanInput s) = cleanInput s
  /\ runes (cleanInput s) = clean_runes (runes s)
  /\ RuneCountInString (cleanInput s) <= RuneCountInString s.
Proof.
  assert (Hr : runes (cleanInput s) = clean_runes (runes s)).
  { rewrite runes_cleanInput. apply clean_runes_trim. }
  repeat split.
  - rewrite (cleanInput_runes (strings.TrimSpace s)), (cleanInput_runes s).
    rewrite !runes_TrimSpace. now rewrite !clean_runes_trim.
  - rewrite cleanInput_runes.
    rewrite TrimSpace_encode_all by apply clean_runes_valid, runes_valid.
    now rewrite (trim_trimmed _ _ (clean_runes_trimmed _)).
  - exact Hr.
  - unfold RuneCountInString. rewrite Hr. unfold clean_runes.
    pose proof (length_join_split unicode.IsSpace 32
                  (List.filter retained (runes s)) []) as H1.
    pose proof (List.filter_length_le retained (runes s)) as H2.
    cbn [length] in H1. lia.
Qed.

(** ** A provider requested by name *)

Lemma print_names_chatProvider entries :
  forall w, chatProvider (print_names entries w) = chatProvider w.
Proof.
  induction entries as [|[n q] rest IH]; intros w; cbn [print_names];
    [reflexivity|]. now rewrite IH.
Qed.

(** X10. A provider requested by name is never replaced by the automatic
    selection: the session uses it exactly when it is configured with a
    non-empty key, and otherwise stops with the configuration error for
    that name, even when other providers have a key.  The order in which
    the providers are visited plays no part. *)
Theorem X10_requested_provider_is_kept env cfg w :
  chatProvider w <> "" ->
  let r := resolve_provider env (inr cfg) w in
  chatProvider (snd r) = chatProvider w
  /\ (forall p, fst r = Some p
                <-> Providers cfg !! chatProvider w = Some p /\ has_key p)
  /\ (fst r = None -> config_error (chatProvider w) (snd r)).
Proof.
  intros Hreq. apply String.eqb_neq in Hreq.
  unfold resolve_provider. rewrite Hreq. cbv zeta.
  destruct (Providers cfg !! chatProvider w) as [p|] eqn:Hlook.
  - destruct (String.eqb (APIKey p) "") eqn:Hkey; cbn [fst snd].
    + split; [reflexivity|]. split.
      * intros p'. split; [discriminate|]. intros [[= <-] Hk].
        apply String.eqb_eq in Hkey. contradiction.
      * intros _. right. cbn [stdout fmt_Print].
        apply in_or_app. left. apply in_or_app. left. apply in_or_app. right.
        now left.
    + split; [reflexivity|]. split; [|discriminate].
      intros p'. split.
      * intros [= <-]. split; [reflexivity|]. now apply String.eqb_neq.
      * intros [[= <-] _]. reflexivity.
  - cbn [fst snd]. rewrite print_names_chatProvider. split; [reflexivity|].
    split; [intros p'; split; [discriminate | intros [[=] _]]|].
    intros _. left.
    destruct (print_names_stdout (range_Providers env 1 (Providers cfg))
                (fmt_Println "📋 可用的提供商:"
                   (fmt_Print ("❌ 提供商 '" +:+ chatProvider w +:+ "' 未找到" +:+ nl) w)))
      as [out ->].
    cbn [stdout fmt_Println fmt_Print].
    apply in_or_app. left. apply in_or_app. left. apply in_or_app. right.
    now left.
Qed.

Lemma X10_witness :
  let w := set_chatProvider "anthropic" empty_world in
  let r := resolve_provider mock_env_rev (inr two_providers) w in
  chatProvider (snd r) = "anthropic"
  /\ (forall p, fst r = Some p
                <-> Providers two_providers !! "anthropic" = Some p /\ has_key p)
  /\ (fst r = None -> config_error "anthropic" (snd r)).
Proof.
  intros w.
  apply (X10_requested_provider_is_kept mock_env_rev two_providers w).
  discriminate.
Defined.

(** ** Package config: validation and key lookup *)

Lemma validate_keys_None getenv entries :
  config.validate_keys getenv entries = None
  <-> forall name p, In (name, p) entries -> APIKey p = "" ->
                     getenv (name +:+ "_API_KEY") <> "".
Proof.
  induction entries as [|[n p] rest IH]; cbn [config.validate_keys].
  - split; [intros _ ? ? [] | reflexivity].
  - destruct (String.eqb (APIKey p) "") eqn:Hk.
    + destruct (String.eqb (getenv (n +:+ "_API_KEY")) "") eqn:He.
      * split; [discriminate|]. intros H. exfalso.
        apply (H n p (or_introl eq_refl)); now apply String.eqb_eq.
      * rewrite IH. split.
        -- intros H name q [[= <- <-]|Hin] Hq; [now apply String.eqb_neq | eauto].
        -- intros H name q Hin. apply H. now right.
    + rewrite IH. split.
      * intros H name q [[= <- <-]|Hin] Hq; [|eauto].
        apply String.eqb_neq in Hk. contradiction.
      * intros H name q Hin. apply H. now right.
Qed.

Lemma Validate_accepts_iff host c :
  config.range_map host 0 (config.Providers c)
  ≡ₚ map_to_list (config.Providers c) ->
  config.Validate host c = None
  <-> (config.Provider (config.Default c) = ""
       \/ is_Some (config.Providers c !! config.Provider (config.Default c)))
      /\ (forall name p,
             config.Providers c !! name = Some p -> APIKey p = "" ->
             config.Getenv host (name +:+ "_API_KEY") <> "").
Proof.
  intros Hperm.
  assert (Hkeys :
            config.validate_keys (config.Getenv host)
              (config.range_map host 0 (config.Providers c)) = None
            <-> forall name p,
                config.Providers c !! name = Some p -> APIKey p = "" ->
                config.Getenv host (name +:+ "_API_KEY") <> "").
  { rewrite validate_keys_None. split; intros H name p Hin; apply H.
    - eapply Permutation_in; [symmetry; exact Hperm|].
      now apply list_elem_of_In, elem_of_map_to_list.
    - apply elem_of_map_to_list, list_elem_of_In.
      eapply Permutation_in; [exact Hperm | exact Hin]. }
  unfold config.Validate. cbv zeta.
  destruct (String.eqb (config.Provider (config.Default c)) "") eqn:Hd;
    cbn [negb].
  - apply String.eqb_eq in Hd. rewrite Hkeys. split; [intros H; split; auto|].
    now intros [_ H].
  - apply String.eqb_neq in Hd.
    destruct (config.Providers c !! config.Provider (config.Default c))
      as [p|] eqn:Hlook.
    + rewrite Hkeys. split; [intros H; split; eauto|]. now intros [_ H].
    + split; [discriminate|]. intros [[H|[p H]] _]; [contradiction | discriminate].
Qed.

(** X11. Validate accepts a configuration exactly when the default
    provider, if one is named, is configured, and every provider without a
    key in the file has the environment variable <name>_API_KEY set (the
    name taken as it is written).  Which error is reported may depend on
    the order in which the providers are visited; whether there is one does
    not. *)
Theorem X11_Validate_accepts_iff host c :
  config.range_map host 0 (config.Providers c)
  ≡ₚ map_to_list (config.Providers c) ->
  config.Validate host c = None
  <-> (config.Provider (config.Default c) = ""
       \/ is_Some (config.Providers c !! config.Provider (config.Default c)))
      /\ (forall name p,
             config.Providers c !! name = Some p -> APIKey p = "" ->
             config.Getenv host (name +:+ "_API_KEY") <> "").
Proof. apply Validate_accepts_iff. Qed.

Lemma X11_witness :
  let c := example_full_config {[ "openai" := keyed "" ]} in
  let host := mock_host (env_with "openai_API_KEY" "sk-env") c (fun _ => false) in
  config.Validate host c = None
  <-> (config.Provider (config.Default c) = ""
       \/ is_Some (config.Providers c !! config.Provider (config.Default c)))
      /\ (forall name p,
             config.Providers c !! name = Some p -> APIKey p = "" ->
             config.Getenv host (name +:+ "_API_KEY") <> "").
Proof.
  intros c host. apply (X11_Validate_accepts_iff host c). reflexivity.
Defined.

(** X12. In a configuration that Validate accepts, GetProvider succeeds
    for every configured provider and returns it with a non-empty key: the
    key of the file when there is one (the environment is then not
    consulted), otherwise the value of <name>_API_KEY; the other fields are
    those of the file.  For a name that is not configured GetProvider
    fails. *)
Theorem X12_validated_providers_have_keys host c :
  config.range_map host 0 (config.Providers c)
  ≡ₚ map_to_list (config.Providers c) ->
  config.Validate host c = None ->
  (forall name p,
      config.Providers c !! name = Some p ->
      exists p',
        config.GetProvider host c name = inr p'
        /\ APIKey p' <> ""
        /\ APIKey p'
           = (if String.eqb (APIKey p) ""
              then config.Getenv host (name +:+ "_API_KEY") else APIKey p)
        /\ BaseURL p' = BaseURL p /\ Model p' = Model p
        /\ MaxTokens p' = MaxTokens p /\ Extra p' = Extra p)
  /\ (forall name,
         config.Providers c !! name = None ->
         exists err, config.GetProvider host c name = inl err).
Proof.
  intros Hperm Hval.
  apply (Validate_accepts_iff host c Hperm) in Hval. destruct Hval as [_ Hkeys].
  split.
  - intros name p Hlook. unfold config.GetProvider. rewrite Hlook.
    destruct (String.eqb (APIKey p) "") eqn:Hk.
    + apply String.eqb_eq in Hk. pose proof (Hkeys name p Hlook Hk) as He.
      apply String.eqb_neq in He. cbv zeta. rewrite He. cbn [negb].
      eexists. split; [reflexivity|]. apply String.eqb_neq in He.
      repeat split; trivial.
    + exists p. split; [reflexivity|]. apply String.eqb_neq in Hk.
      repeat split; trivial.
  - intros name Hlook. unfold config.GetProvider. rewrite Hlook. eauto.
Qed.

Lemma X12_witness :
  let c := example_full_config {[ "openai" := keyed "" ]} in
  let host := mock_host (env_with "openai_API_KEY" "sk-env") c (fun _ => false) in
  (exists p',
      config.GetProvider host c "openai" = inr p'
      /\ APIKey p' <> ""
      /\ APIKey p' = "sk-env"
      /\ BaseURL p' = "" /\ Model p' = "" /\ MaxTokens p' = 0 /\ Extra p' = ∅)
  /\ exists err, config.GetProvider host c "anthropic" = inl err.
Proof.
  intros c host.
  destruct (X12_validated_providers_have_keys host c) as [Hsome Hnone].
  - reflexivity.
  - vm_compute. reflexivity.
  - split.
    + apply (Hsome "openai" (keyed "")). reflexivity.
    + apply (Hnone "anthropic"). reflexivity.
Defined.

(** X13. Load hands out and publishes in GlobalConfig only a
    configuration that Validate accepts; when decoding or validation fails
    it returns an error and leaves GlobalConfig as it was.  LoadConfig,
    which the chat command uses, does not validate: it returns whatever
    viper decoded. *)
Theorem X13_Load_publishes_only_valid host g :
  let r := config.Load host g in
  (forall cfg, fst r = inr cfg ->
               config.viper_Unmarshal host = inr cfg
               /\ config.Validate host cfg = None
               /\ snd r = Some cfg)
  /\ (forall err, fst r = inl err -> snd r = g)
  /\ (forall cfg, config.viper_ReadInConfig host = None ->
                  config.viper_Unmarshal host = inr cfg ->
                  config.LoadConfig host = inr cfg).
Proof.
  unfold config.Load, config.LoadConfig. cbv zeta.
  destruct (config.viper_Unmarshal host) as [e|cfg]; cbn [fst snd].
  - repeat split; try discriminate.
  - destruct (config.Validate host cfg) eqn:Hv; cbn [fst snd].
    + repeat split; try discriminate. intros cfg' -> [= <-]. reflexivity.
    + repeat split; try discriminate.
      * now injection H as <-.
      * now injection H as <-.
      * now injection H as <-.
      * intros cfg' -> [= <-]. reflexivity.
Qed.

Lemma X13_witness :
  let c := example_full_config {[ "openai" := keyed "" ]} in
  let host := mock_host (fun _ => "") c (fun _ => false) in
  (exists err, fst (config.Load host None) = inl err)
  /\ snd (config.Load host None) = None
  /\ config.LoadConfig host = inr c.
Proof.
  intros c host.
  destruct (X13_Load_publishes_only_valid host None) as (_ & Hfail & Hcfg).
  split; [eexists; vm_compute; reflexivity|]. split.
  - eapply Hfail. vm_compute. reflexivity.
  - apply Hcfg; reflexivity.
Defined.

(** ** The config command *)

(** The example configuration has the 975 bytes of the literal in the
    source. *)
Lemma configContent_length : String.length configContent = 975%nat.
Proof. vm_compute. reflexivity. Qed.

Lemma HasSuffix_append d suffix : strings_HasSuffix (d +:+ suffix) suffix = true.
Proof.
  unfold strings_HasSuffix. rewrite length_append.
  replace (String.length d + String.length suffix - String.length suffix)%nat
    with (String.length d) by lia.
  rewrite drop_bytes_append, String.eqb_refl.
  apply andb_true_iff. split; [apply Nat.leb_le; lia | reflexivity].
Qed.

Lemma TrimSuffix_append d suffix : strings_TrimSuffix (d +:+ suffix) suffix = d.
Proof.
  unfold strings_TrimSuffix. rewrite HasSuffix_append, length_append.
  replace (String.length d + String.length suffix - String.length suffix)%nat
    with (String.length d) by lia.
  apply take_bytes_append.
Qed.

Lemma HasSuffix_ends_with s suffix :
  strings_HasSuffix s suffix = true -> ends_with suffix s.
Proof.
  unfold strings_HasSuffix. intros H. apply andb_true_iff in H.
  destruct H as [_ H]. apply String.eqb_eq in H.
  exists (take_bytes (String.length s - String.length suffix) s).
  rewrite <- H at 2. symmetry. apply take_drop_bytes.
Qed.

Lemma TrimSuffix_other s suffix :
  ~ ends_with suffix s -> strings_TrimSuffix s suffix = s.
Proof.
  intros H. unfold strings_TrimSuffix.
  destruct (strings_HasSuffix s suffix) eqn:E; [|reflexivity].
  exfalso. apply H. now apply HasSuffix_ends_with.
Qed.

(** X14. createExampleConfig asks for the directory named by the file path
    without its final /config.yaml; for a path that does not end so it asks
    for a directory at the path of the file itself.  When the directory
    cannot be made nothing is written and that error is returned; otherwise
    the example configuration is written once, to the path given, and the
    result is that of the write. *)
Theorem X14_createExampleConfig_directory_then_file :
  (forall host dir st,
      made (snd (createExampleConfig host (dir +:+ "/config.yaml") st))
      = made st ++ [dir])
  /\ (forall host filename st,
         ~ ends_with "/config.yaml" filename ->
         made (snd (createExampleConfig host filename st))
         = made st ++ [filename])
  /\ (forall host filename st err,
         config.MkdirAll host (strings_TrimSuffix filename "/config.yaml")
         = Some err ->
         fst (createExampleConfig host filename st) = Some err
         /\ written (snd (createExampleConfig host filename st)) = written st)
  /\ (forall host filename st,
         config.MkdirAll host (strings_TrimSuffix filename "/config.yaml")
         = None ->
         fst (createExampleConfig host filename st)
         = config.WriteFile host filename configContent
         /\ written (snd (createExampleConfig host filename st))
            = written st ++ [(filename, configContent)]).
Proof.
  split; [|split; [|split]].
  - intros host dir st. unfold createExampleConfig. rewrite TrimSuffix_append.
    destruct (config.MkdirAll host dir); reflexivity.
  - intros host filename st Hend. unfold createExampleConfig.
    rewrite TrimSuffix_other by assumption.
    destruct (config.MkdirAll host filename); reflexivity.
  - intros host filename st err H. unfold createExampleConfig. rewrite H.
    split; reflexivity.
  - intros host filename st H. unfold createExampleConfig. rewrite H.
    split; reflexivity.
Qed.

Lemma X14_witness :
  let host := mock_host (fun _ => "") (example_full_config ∅) (fun _ => false) in
  made (snd (createExampleConfig host "settings.yaml" empty_sys))
  = [] ++ ["settings.yaml"]
  /\ (fst (createExampleConfig host "settings.yaml" empty_sys)
      = config.WriteFile host "settings.yaml" configContent
      /\ written (snd (createExampleConfig host "settings.yaml" empty_sys))
         = [] ++ [("settings.yaml", configContent)]).
Proof.
  intros host.
  destruct X14_createExampleConfig_directory_then_file as (_ & Hother & _ & Hok).
  split.
  - apply (Hother host "settings.yaml" empty_sys).
    intros [pre Hpre].
    pose proof (HasSuffix_append pre "/config.yaml") as Hs.
    rewrite <- Hpre in Hs. vm_compute in Hs. discriminate Hs.
  - apply (Hok host "settings.yaml" empty_sys). reflexivity.
Defined.

(** X15. config init touches the file system only to write the example
    configuration to the default path, and only when that path could be
    determined, no file exists there and the directory could be made: in
    every other case it makes no directory and writes nothing, and an
    existing file is never overwritten. *)
Theorem X15_configInit_never_overwrites host st :
  let st' := configInit host st in
  (written st' = written st
   \/ exists path,
       config.GetDefaultConfigPath host = inr path
       /\ config.Stat_ok host path = false
       /\ config.MkdirAll host (strings_TrimSuffix path "/config.yaml") = None
       /\ written st' = written st ++ [(path, configContent)])
  /\ (forall path,
         config.GetDefaultConfigPath host = inr path ->
         config.Stat_ok host path = true ->
         made st' = made st /\ written st' = written st
         /\ sys_out st'
            = sys_out st ++ ["配置文件已存在: " +:+ path +:+ nl;
                             "如果要重新初始化，请先删除现有配置文件。" +:+ nl])
  /\ (forall err,
         config.GetDefaultConfigPath host = inl err ->
         made st' = made st /\ written st' = written st).
Proof.
  unfold configInit.
  destruct (config.GetDefaultConfigPath host) as [err|path].
  { repeat split; try discriminate. now left. }
  destruct (config.Stat_ok host path) eqn:Hstat.
  { split; [now left|]. split; [|discriminate].
    intros path' [= <-] _. cbn [made written sys_out sys_print].
    rewrite <- app_assoc. repeat split. }
  split; [|split; [|discriminate]].
  - unfold createExampleConfig.
    destruct (config.MkdirAll host _) eqn:Hmk; [now left|].
    right. exists path. repeat split; trivial.
    destruct (config.WriteFile host path configContent); reflexivity.
  - intros path' [= <-] H. rewrite Hstat in H. discriminate H.
Qed.

Lemma X15_witness :
  let host := mock_host (fun _ => "") (example_full_config ∅) (fun _ => true) in
  let st' := configInit host empty_sys in
  made st' = [] /\ written st' = []
  /\ sys_out st'
     = [] ++ ["配置文件已存在: " +:+ "/home/u/.ai-chat-cli/config.yaml" +:+ nl;
              "如果要重新初始化，请先删除现有配置文件。" +:+ nl].
Proof.
  intros host st'.
  apply (proj1 (proj2 (X15_configInit_never_overwrites host empty_sys))
           "/home/u/.ai-chat-cli/config.yaml"); reflexivity.
Defined.

Lemma redact_empty_iff p : String.eqb (APIKey (redact p)) "" = String.eqb (APIKey p) "".
Proof.
  unfold redact. destruct (String.eqb (APIKey p) "") eqn:E; [exact E | reflexivity].
Qed.

Lemma redact_fields p :
  Model (redact p) = Model p /\ MaxTokens (redact p) = MaxTokens p.
Proof. unfold redact. destruct (String.eqb (APIKey p) ""); split; reflexivity. Qed.

Lemma apiKeyStatus_redact h1 h2 name p :
  config.Getenv h1 = config.Getenv h2 ->
  config.unicode_ToUpper h1 = config.unicode_ToUpper h2 ->
  apiKeyStatus h1 name (redact p) = apiKeyStatus h2 name p.
Proof.
  intros He Hu. unfold apiKeyStatus. now rewrite redact_empty_iff, He, Hu.
Qed.

Lemma show_providers_redact h1 h2 entries :
  config.Getenv h1 = config.Getenv h2 ->
  config.unicode_ToUpper h1 = config.unicode_ToUpper h2 ->
  forall st1 st2,
    sys_out st1 = sys_out st2 ->
    sys_out (show_providers h1 (map redact_entry entries) st1)
    = sys_out (show_providers h2 entries st2).
Proof.
  intros He Hu.
  induction entries as [|[name p] rest IH]; intros st1 st2 Hout; [exact Hout|].
  cbn [map redact_entry fst snd show_providers]. apply IH.
  destruct (redact_fields p) as [-> ->].
  rewrite (apiKeyStatus_redact h1 h2 name p He Hu).
  cbn [sys_out sys_print]. now rewrite Hout.
Qed.

Lemma validate_keys_redact getenv entries :
  config.validate_keys getenv (map redact_entry entries)
  = config.validate_keys getenv entries.
Proof.
  induction entries as [|[name p] rest IH]; [reflexivity|].
  cbn [map redact_entry fst snd config.validate_keys].
  rewrite redact_empty_iff, IH. reflexivity.
Qed.

Lemma Validate_redact host c :
  order_ignores_keys host c ->
  config.Validate (with_config host (redact_config c)) (redact_config c)
  = config.Validate (with_config host c) c.
Proof.
  intros Hord. unfold config.Validate.
  cbn [redact_config config.Providers config.Default with_config
       config.Getenv config.range_map].
  rewrite lookup_fmap, (Hord 0%nat), validate_keys_redact.
  destruct (config.Providers c !! config.Provider (config.Default c));
    reflexivity.
Qed.

Lemma configShow_redact host c st :
  order_ignores_keys host c ->
  sys_out (configShow (with_config host (redact_config c)) st)
  = sys_out (configShow (with_config host c) st).
Proof.
  intros Hord. unfold configShow, config.Load.
  cbn [with_config config.viper_Unmarshal].
  rewrite (Validate_redact host c Hord).
  destruct (config.Validate (with_config host c) c); [reflexivity|].
  cbn [with_config config.range_map redact_config config.Providers
       config.Default config.Advanced config.fmt_f2].
  rewrite (Hord 1%nat).
  apply show_providers_redact; reflexivity.
Qed.

(** X16. config show tells of an API key only whether it is set: two
    configurations that differ only in the values of their non-empty keys
    print exactly the same, be it the listing or the error of a failed
    load. *)
Theorem X16_configShow_hides_key_values host c1 c2 st :
  order_ignores_keys host c1 ->
  order_ignores_keys host c2 ->
  redact_config c1 = redact_config c2 ->
  sys_out (configShow (with_config host c1) st)
  = sys_out (configShow (with_config host c2) st).
Proof.
  intros H1 H2 Heq.
  rewrite <- (configShow_redact host c1 st H1), <- (configShow_redact host c2 st H2).
  now rewrite Heq.
Qed.

Lemma X16_witness :
  let c1 := example_full_config {[ "openai" := keyed "sk-one" ]} in
  let c2 := example_full_config {[ "openai" := keyed "sk-another" ]} in
  let host := mock_host (fun _ => "") c1 (fun _ => false) in
  sys_out (configShow (with_config host c1) empty_sys)
  = sys_out (configShow (with_config host c2) empty_sys).
Proof.
  intros c1 c2 host.
  apply (X16_configShow_hides_key_values host c1 c2 empty_sys).
  - intros k. vm_compute. reflexivity.
  - intros k. vm_compute. reflexivity.
  - vm_compute. reflexivity.
Defined.

(** ** Provider errors *)

Lemma contains_refl s : contains s s.
Proof. exists EmptyString, EmptyString. now rewrite append_nil_r. Qed.

Lemma contains_trans a b c : contains a b -> contains b c -> contains a c.
Proof.
  intros (p1 & q1 & ->) (p2 & q2 & ->).
  exists (p2 +:+ p1), (q1 +:+ q2). now rewrite !append_assoc.
Qed.

Lemma contains_length sub s :
  contains sub s -> (String.length sub <= String.length s)%nat.
Proof.
  intros (pre & post & ->). rewrite !length_append. lia.
Qed.

Lemma provider_quoted_messages :
  forall e e', In e' (providers.quoted e) ->
               contains (providers.Error e') (providers.Error e).
Proof.
  fix IH 1. intros [msg inner | provider code message [cause|]] e' Hin.
  - destruct Hin as [<-|[]]. apply contains_refl.
  - cbn [providers.quoted] in Hin. destruct Hin as [<-|Hin];
      [apply contains_refl|].
    apply (contains_trans _ (providers.Error cause)); [now apply IH|].
    cbn [providers.Error].
    exists (provider +:+ ": " +:+ message +:+ " ("), ")".
    now rewrite !append_assoc.
  - destruct Hin as [<-|[]]. apply contains_refl.
Qed.

Lemma provider_quoted_chain :
  forall e, exists rest, providers.chain e = providers.quoted e ++ rest.
Proof.
  fix IH 1. intros [msg [inner|] | provider code message [cause|]].
  - exists (providers.chain inner). reflexivity.
  - exists []. reflexivity.
  - destruct (IH cause) as [rest Hrest]. exists rest.
    cbn [providers.chain providers.quoted]. now rewrite Hrest.
  - exists []. reflexivity.
Qed.

(** X17. NewProviderError keeps its four arguments, and Unwrap gives back
    the cause it was built with.  The message starts with the provider and
    the message text and never shows the code.  It contains the message of
    every error it quotes: the error itself and the cause of each
    ProviderError on the way down.  These errors open the chain that Unwrap
    follows, but the chain can go on below a cause of another type, and the
    message then need not contain what lies there. *)
Theorem X17_provider_error_wraps_its_cause :
  (forall provider code message cause,
      providers.Unwrap (providers.NewProviderError provider code message cause)
      = cause)
  /\ (forall provider code code' message cause,
         providers.Error (providers.NewProviderError provider code message cause)
         = providers.Error (providers.NewProviderError provider code' message cause))
  /\ (forall provider code message cause,
         exists rest,
           providers.Error (providers.NewProviderError provider code message cause)
           = provider +:+ ": " +:+ message +:+ rest)
  /\ (forall e e',
         In e' (providers.quoted e) ->
         contains (providers.Error e') (providers.Error e))
  /\ (forall e, exists rest, providers.chain e = providers.quoted e ++ rest)
  /\ (forall provider code message msg msg',
         let below := providers.otherError msg' None in
         let cause := providers.otherError msg (Some below) in
         let e := providers.NewProviderError provider code message (Some cause) in
         providers.Unwrap e = Some cause
         /\ providers.Unwrap cause = Some below
         /\ providers.chain e = [e; cause; below]
         /\ providers.Error e = provider +:+ ": " +:+ message +:+ " (" +:+ msg +:+ ")"
         /\ ((String.length (providers.Error e) < String.length msg')%nat ->
             ~ contains (providers.Error below) (providers.Error e))).
Proof.
  split; [reflexivity|]. split; [intros ? ? ? ? [?|]; reflexivity|].
  split; [|split; [exact provider_quoted_messages|
                   split; [exact provider_quoted_chain|]]].
  - intros provider code message [cause|];
      cbn [providers.NewProviderError providers.Error].
    + eexists. reflexivity.
    + exists EmptyString. now rewrite append_nil_r.
  - intros provider code message msg msg' below cause e.
    repeat (split; [reflexivity|]).
    intros Hlt Hc. apply contains_length in Hc.
    cbn [providers.Error below] in Hc. lia.
Qed.

Lemma X17_witness :
  let inner := providers.otherError "connection refused" None in
  let mid := providers.NewProviderError "openai" "E1" "request failed" (Some inner) in
  let outer := providers.NewProviderError "router" "E2" "no backend" (Some mid) in
  contains "connection refused" (providers.Error outer)
  /\ ~ contains "dial tcp 10.0.0.1:443: connection refused"
       (providers.Error
          (providers.NewProviderError "openai" "E1" "failed"
             (Some (providers.otherError "timeout"
                      (Some (providers.otherError
                               "dial tcp 10.0.0.1:443: connection refused"
                               None)))))).
Proof.
  intros inner mid outer. split.
  - apply (proj1 (proj2 (proj2 (proj2 X17_provider_error_wraps_its_cause)))
             outer inner).
    cbn. auto.
  - apply (proj2 (proj2 (proj2 (proj2 (proj2 X17_provider_error_wraps_its_cause))))
             "openai" "E1" "failed" "timeout"
             "dial tcp 10.0.0.1:443: connection refused").
    vm_compute. lia.
Defined.

(** ** Commands in any letter case *)

Lemma byte_of_val c : byte_of (byte_val c) = c.
Proof.
  unfold byte_val, byte_of. rewrite N2Z.id. apply ascii_N_embedding.
Qed.

Lemma printable_word_ascii s : printable_word s = true -> strings.isASCII s = true.
Proof.
  induction s as [|c t IH]; [reflexivity|].
  cbn [printable_word strings.isASCII]. intros H.
  apply andb_true_iff in H. destruct H as [H Ht]. rewrite (IH Ht).
  unfold utf8.RuneSelf. lia.
Qed.

Lemma printable_rune b :
  33 <= b <= 126 ->
  unicode.IsSpace b = false /\ retained b = true /\ utf8.ValidRune b = true
  /\ utf8.EncodeRune b = String (byte_of b) EmptyString.
Proof.
  intros Hb. unfold unicode.IsSpace, retained, utf8.ValidRune, utf8.EncodeRune,
    utf8.surrogateMin.
  replace ((0 <=? b) && (b <=? 255)) with true by lia.
  replace ((0 <=? b) && (b <=? 127)) with true by lia.
  repeat split; lia.
Qed.

Lemma printable_word_runes s :
  printable_word s = true ->
  encode_all (runes s) = s
  /\ Forall (fun r => unicode.IsSpace r = false) (runes s)
  /\ Forall (fun r => retained r = true) (runes s).
Proof.
  unfold runes. induction s as [|c t IH]; [repeat split; constructor|].
  cbn [printable_word]. intros H.
  apply andb_true_iff in H. destruct H as [H Ht].
  destruct (IH Ht) as (He & Hs & Hr).
  rewrite chunks_ascii by (unfold utf8.RuneSelf; lia).
  cbn [map fst].
  destruct (printable_rune (byte_val c)) as (Hsp & Hret & _ & Henc); [lia|].
  repeat split; [|now constructor | now constructor].
  unfold encode_all in *. cbn [map concat_bytes].
  rewrite Henc, byte_of_val, He. reflexivity.
Qed.

Lemma clean_runes_word rs :
  Forall (fun r => unicode.IsSpace r = false) rs ->
  Forall (fun r => retained r = true) rs ->
  clean_runes rs = rs /\ trim unicode.IsSpace rs = rs.
Proof.
  intros Hs Hr. destruct rs as [|r rs]; [split; reflexivity|].
  split.
  - unfold clean_runes. rewrite (filter_all _ _ Hr).
    rewrite <- (app_nil_r (r :: rs)) at 1.
    rewrite split_on_app_word by assumption. reflexivity.
  - apply trim_trimmed, word_trimmed. split; [discriminate | assumption].
Qed.

Lemma printable_word_clean s :
  printable_word s = true ->
  strings.TrimSpace s = s /\ cleanInput s = s.
Proof.
  intros H. destruct (printable_word_runes s H) as (He & Hs & Hr).
  destruct (clean_runes_word (runes s) Hs Hr) as [Hc Ht].
  assert (Htrim : strings.TrimSpace s = s).
  { rewrite <- He at 1. rewrite TrimSpace_encode_all by apply runes_valid.
    now rewrite Ht. }
  split; [exact Htrim|].
  rewrite cleanInput_runes, Htrim, Hc. exact He.
Qed.

(** X18. A line made of one word of printable ASCII characters is read as
    it stands: it is a session command exactly when its lower-case form is
    one of quit, exit, clear, reset, history, help, whatever the case of
    its letters, and ends the loop exactly for quit and exit; any other
    such word is sent unchanged as the question. *)
Theorem X18_commands_in_any_letter_case env providerCfg s w :
  printable_word s = true ->
  s <> "" ->
  let lower := strings.map_bytes strings.lower_byte s in
  question_of env s
  = (if existsb (String.eqb lower) session_commands then None else Some s)
  /\ ((exists w', loop_body env providerCfg s w = Return w')
      <-> lower = "quit" \/ lower = "exit").
Proof.
  intros Hp Hne lower.
  destruct (printable_word_clean s Hp) as [Htrim Hclean].
  assert (Hlow : strings.ToLower (unicode_ToLower env) s = lower).
  { unfold strings.ToLower. now rewrite (printable_word_ascii s Hp). }
  apply String.eqb_neq in Hne.
  split.
  - unfold question_of. cbv zeta. rewrite Htrim, Hclean, Hlow, Hne.
    reflexivity.
  - rewrite loop_body_return_iff. unfold quits. cbv zeta.
    rewrite Htrim, Hclean, Hlow, Hne. cbn [negb andb].
    rewrite orb_true_iff, !String.eqb_eq. reflexivity.
Qed.

Lemma X18_witness :
  let env := mock_env (fun _ => ok_response "hello") in
  question_of env "HiStOrY" = None
  /\ ((exists w', loop_body env demo_provider "HiStOrY" empty_world = Return w')
      <-> "history" = "quit" \/ "history" = "exit").
Proof.
  intros env.
  apply (X18_commands_in_any_letter_case env demo_provider "HiStOrY" empty_world).
  - reflexivity.
  - discriminate.
Defined.

(** ** The key status shown and the key resolved *)

(** X19. config show and GetProvider look at different environment
    variables: the status is taken from the variable named after the
    upper-cased provider name, the key from the variable named after the
    name as written (the one Validate demands).  So for a provider without
    a key in a validated configuration, whenever the upper-cased variable
    is unset the status reads as not set although GetProvider returns a
    non-empty key. *)
Theorem X19_status_and_key_use_different_variables host c name p :
  config.range_map host 0 (config.Providers c)
  ≡ₚ map_to_list (config.Providers c) ->
  config.Validate host c = None ->
  config.Providers c !! name = Some p ->
  APIKey p = "" ->
  config.Getenv host
    (strings_ToUpper (config.unicode_ToUpper host) name +:+ "_API_KEY") = "" ->
  apiKeyStatus host name p = "未设置"
  /\ exists p',
      config.GetProvider host c name = inr p'
      /\ APIKey p' = config.Getenv host (name +:+ "_API_KEY")
      /\ APIKey p' <> "".
Proof.
  intros Hperm Hval Hlook Hkey Hup.
  apply (Validate_accepts_iff host c Hperm) in Hval. destruct Hval as [_ Hkeys].
  pose proof (Hkeys name p Hlook Hkey) as Henv.
  split.
  - unfold apiKeyStatus. now rewrite Hkey, Hup.
  - unfold config.GetProvider. rewrite Hlook, Hkey. cbv zeta.
    apply String.eqb_neq in Henv. rewrite Henv. cbn [String.eqb negb].
    eexists. split; [reflexivity|]. apply String.eqb_neq in Henv.
    split; [reflexivity | exact Henv].
Qed.

Lemma X19_witness :
  let c := example_full_config {[ "openai" := keyed "" ]} in
  let host := mock_host (env_with "openai_API_KEY" "sk-env") c (fun _ => false) in
  apiKeyStatus host "openai" (keyed "") = "未设置"
  /\ exists p',
      config.GetProvider host c "openai" = inr p'
      /\ APIKey p' = "sk-env"
      /\ APIKey p' <> "".
Proof.
  intros c host.
  apply (X19_status_and_key_use_different_variables host c "openai" (keyed ""));
    reflexivity.
Defined.
